(** * PK_Model: the compartmental flux model and its solver driver

    A shallow embedding of [pkmodel/solution.py] (class [Solution]) and the
    properties of its two right-hand-side functions, its constructor, its
    [solver] method and its plotting entry point.

    Numbers.  The Python code is generic in the numbers it is handed (it only
    uses [+], [-], [*] and [/]); at run time the integrator hands it arrays
    of binary64 values, whose division is total: dividing by zero gives an
    infinity or a NaN.  (On a state of plain Python floats a division by a
    zero volume raises [ZeroDivisionError] instead; the statements that
    depend on it ask for volumes that are not zero.)  The embedding keeps
    that genericity: every definition is written over a carrier [F] with
    these operations and the comparison [==] of the array library.
    Properties of the shape of the results (which entry holds which
    expression, what is returned and what is raised) are proved for every
    carrier, binary64 included.  Properties that rest on the laws of
    arithmetic (sums of entries, signs, the spacing of the grid) are proved
    over the reals, the number model of the specification; rounding is not
    part of them, and where a rounded sum differs from the exact one a run
    in binary64 shows it.  The binary64 instance also serves to run the
    definitions on concrete inputs.

    Libraries.  [numpy.zeros] and [numpy.linspace] are modelled as
    documented.  The integrator [scipy.integrate.solve_ivp] is a parameter:
    the theorems hold for every function with its interface. *)

From Stdlib Require Import String ZArith List Bool Lia DecimalString.
From Stdlib Require Import Reals Lra.
From Stdlib Require Import Floats Uint63.
Import ListNotations.

Local Open Scope Z_scope.

(** ** Numbers *)

(** The operations the source and the array library apply to their
    numbers.  [eqb] is the comparison [==]; [of_Z] is the conversion of a
    Python [int] that meets a float in an operation. *)
Class Number (F : Type) : Type := {
  add : F -> F -> F;
  sub : F -> F -> F;
  mul : F -> F -> F;
  div : F -> F -> F;
  eqb : F -> F -> bool;
  of_Z : Z -> F
}.

Declare Scope num_scope.
Delimit Scope num_scope with num.
Infix "+" := add : num_scope.
Infix "-" := sub : num_scope.
Infix "*" := mul : num_scope.
Infix "/" := div : num_scope.

(** The Python literal [0]. *)
Definition zero {F} `{Number F} : F := of_Z 0.

(** Exact arithmetic: the reals. *)
#[export] Instance R_number : Number R := {
  add := Rplus;
  sub := Rminus;
  mul := Rmult;
  div := Rdiv;
  eqb := fun x y => if Req_dec_T x y then true else false;
  of_Z := IZR
}.

(** Run-time arithmetic: IEEE 754 binary64. *)
#[export] Instance float_number : Number float := {
  add := PrimFloat.add;
  sub := PrimFloat.sub;
  mul := PrimFloat.mul;
  div := PrimFloat.div;
  eqb := PrimFloat.eqb;
  of_Z := fun z =>
    match z with
    | Z0 => PrimFloat.zero
    | Zpos _ => PrimFloat.of_uint63 (Uint63.of_Z z)
    | Zneg _ => PrimFloat.opp (PrimFloat.of_uint63 (Uint63.of_Z (- z)))
    end
}.

(** ** Exceptions and fallible computations *)

(** The exception classes that matter here.  [IndexError] and [ValueError]
    are the ones the interpreter and the array library raise on the paths
    below; [ConfigurationError] and [IntegrationFailure] are the two error
    kinds named by the specification. *)
Inductive exception : Type :=
| IndexError
| ValueError
| ConfigurationError
| IntegrationFailure.

Inductive result (A : Type) : Type :=
| Return (a : A)
| Raise (e : exception).

Arguments Return {A} a.
Arguments Raise {A} e.

Definition bind {A B} (c : result A) (k : A -> result B) : result B :=
  match c with
  | Return a => k a
  | Raise e => Raise e
  end.

Notation "x <- c ;; k" := (bind c (fun x => k))
  (at level 61, c at next level, right associativity).
Notation "' pat <- c ;; k" := (bind c (fun x => match x with pat => k end))
  (at level 61, pat pattern, c at next level, right associativity).

(** A loop whose body may raise: [for x in xs: acc = body(acc, x)]. *)
Fixpoint for_each {A S} (xs : list A) (body : S -> A -> result S) (acc : S)
  : result S :=
  match xs with
  | [] => Return acc
  | x :: xs' => acc' <- body acc x ;; for_each xs' body acc'
  end.

(** ** Python sequences *)

(** [l[i]]: a negative index counts from the end; out of range raises. *)
Definition getitem {A} (l : list A) (i : Z) : result A :=
  let n := Z.of_nat (length l) in
  let j := if i <? 0 then i + n else i in
  if (j <? 0) || (n <=? j) then Raise IndexError
  else match nth_error l (Z.to_nat j) with
       | Some x => Return x
       | None => Raise IndexError
       end.

Fixpoint replace_nth {A} (l : list A) (k : nat) (v : A) : list A :=
  match l, k with
  | [], _ => []
  | _ :: l', O => v :: l'
  | x :: l', S k' => x :: replace_nth l' k' v
  end.

(** [l[i] = v]. *)
Definition setitem {A} (l : list A) (i : Z) (v : A) : result (list A) :=
  let n := Z.of_nat (length l) in
  let j := if i <? 0 then i + n else i in
  if (j <? 0) || (n <=? j) then Raise IndexError
  else Return (replace_nth l (Z.to_nat j) v).

(** [range(lo, hi)]. *)
Definition range (lo hi : Z) : list Z :=
  map (fun k => lo + Z.of_nat k) (seq 0 (Z.to_nat (hi - lo))).

(** ** The array library

    [numpy.zeros] and [numpy.linspace], as documented. *)

(** [np.zeros(n)]. *)
Definition np_zeros {F} `{Number F} (n : Z) : result (list F) :=
  if n <? 0 then Raise ValueError
  else Return (repeat zero (Z.to_nat n)).

(** [np.linspace(start, stop, num)]: [num] samples [start + i * step] with
    [step = (stop - start) / (num - 1)], the last one set to [stop].  When
    the step is zero (a span too small for the number of samples) the
    samples are [start + (i / (num - 1)) * (stop - start)] instead. *)
Definition np_linspace {F} `{Number F} (start stop : F) (num : Z)
  : result (list F) :=
  if num <? 0 then Raise ValueError
  else
    let div := num - 1 in
    let delta := (stop - start)%num in
    let y := map of_Z (range 0 num) in
    let y := if 0 <? div
             then let step := (delta / of_Z div)%num in
                  let any_step_zero := eqb step zero in
                  if any_step_zero
                  then let y := map (fun v => (v / of_Z div)%num) y in
                       map (fun v => (v * delta)%num) y
                  else map (fun v => (v * step)%num) y
             else map (fun v => (v * delta)%num) y in
    let y := map (fun v => (v + start)%num) y in
    if 1 <? num then setitem y (-1) stop else Return y.

(** [str(i)] for an [int]. *)
Definition str (i : Z) : string := NilZero.string_of_int (Z.to_int i).

(** ** The integrator's interface

    [scipy.integrate.solve_ivp] is an external routine.  It is called with
    the right-hand side, the time span, the initial state and the times at
    which to report, and gives back a result object: the reported times [t],
    the states [y] (one row per component), the number [nfev] of evaluations
    of the right-hand side, a [status] ([0] when the end of the span was
    reached, [-1] when a step failed) and the flag [success]. *)
Module OdeResult.
Record type (F : Type) : Type := {
  t : list F;
  y : list (list F);
  nfev : Z;
  status : Z;
  success : bool
}.
Arguments t {F} _.
Arguments y {F} _.
Arguments nfev {F} _.
Arguments status {F} _.
Arguments success {F} _.
End OdeResult.

Definition rhs_function (F : Type) : Type := F -> list F -> result (list F).

Definition integrator (F : Type) : Type :=
  rhs_function F -> F * F -> list F -> list F -> result (OdeResult.type F).

(** ** The model and the protocol

    Both classes live outside this module; [Solution] reads the attributes
    below and nothing else. *)

Section Flux.

Context {F : Type} {N : Number F}.

Record Model : Type := {
  size : Z;          (* number of compartments, central one included *)
  Vc : F;            (* volume of the main compartment *)
  CL : F;            (* clearance rate *)
  Qps : list F;      (* transition rates of the peripheral compartments *)
  Vps : list F       (* volumes of the peripheral compartments *)
}.

Record Protocol : Type := {
  subcutaneous : bool;
  dose_time_function : F -> F;
  k_a : F
}.

(** ** The right-hand sides *)

(** [Solution.rhs_intravenous]; [y] is [[qc, q_p1, q_p2, ...]], an array
    as the integrator passes it: its divisions do not raise. *)
Definition rhs_intravenous (model : Model) (protocol : Protocol)
  (t : F) (y : list F) : result (list F) :=
  let state := y in
  s0 <- getitem state 0 ;;
  let cleared := (s0 / Vc model * CL model)%num in
  let dq_dt := [zero] in
  let flux_sum := zero in
  '(dq_dt, flux_sum) <-
    for_each (range 1 (size model))
      (fun '(dq_dt, flux_sum) comp =>
         Q_pi <- getitem (Qps model) (comp - 1) ;;
         V_pi <- getitem (Vps model) (comp - 1) ;;
         s0 <- getitem state 0 ;;
         s_comp <- getitem state comp ;;
         let flux := (Q_pi * (s0 / Vc model - s_comp / V_pi))%num in
         Return (dq_dt ++ [flux], (flux_sum + flux)%num))
      (dq_dt, flux_sum) ;;
  setitem dq_dt 0
    (dose_time_function protocol t - cleared - flux_sum)%num.

(** [Solution.rhs_subcutaneous]; [y] is [[q0, qc, q_p1, q_p2, ...]], one
    entry more than in the intravenous case. *)
Definition rhs_subcutaneous (model : Model) (protocol : Protocol)
  (t : F) (y : list F) : result (list F) :=
  let state := y in
  s1 <- getitem state 1 ;;
  let cleared := (s1 / Vc model * CL model)%num in
  let dq_dt := [zero; zero] in
  let dq0_dt := dose_time_function protocol t in
  s0 <- getitem state 0 ;;
  let dq0_dt := (dq0_dt - k_a protocol * s0)%num in
  dq_dt <- setitem dq_dt 0 dq0_dt ;;
  let flux_sum := zero in
  '(dq_dt, flux_sum) <-
    for_each (range 1 (size model))
      (fun '(dq_dt, flux_sum) comp =>
         Q_pi <- getitem (Qps model) (comp - 1) ;;
         V_pi <- getitem (Vps model) (comp - 1) ;;
         s1 <- getitem state 1 ;;
         s_comp <- getitem state (comp + 1) ;;
         let flux := (Q_pi * (s1 / Vc model - s_comp / V_pi))%num in
         Return (dq_dt ++ [flux], (flux_sum + flux)%num))
      (dq_dt, flux_sum) ;;
  s0 <- getitem state 0 ;;
  setitem dq_dt 1 (k_a protocol * s0 - cleared - flux_sum)%num.

(** ** The solution object *)

(** The attribute [sol] first holds an array of zeros and then the
    integrator's result. *)
Inductive sol_attr : Type :=
| SolArray (a : list F)
| SolResult (r : OdeResult.type F).

(** The attributes of a [Solution]; [y0] and [sol] are absent until
    [solver] assigns them. *)
Record Solution : Type := {
  model : Model;
  protocol : Protocol;
  t_eval : list F;
  y0 : option (list F);
  sol : option sol_attr
}.

Definition set_y0 (self : Solution) (v : list F) : Solution :=
  {| model := model self; protocol := protocol self; t_eval := t_eval self;
     y0 := Some v; sol := sol self |}.

Definition set_sol (self : Solution) (v : sol_attr) : Solution :=
  {| model := model self; protocol := protocol self; t_eval := t_eval self;
     y0 := y0 self; sol := Some v |}.

(** A method: it may assign attributes of [self], and it returns or raises.
    Assignments made before an exception stay. *)
Definition method (A : Type) : Type := Solution -> Solution * result A.

Definition mret {A} (a : A) : method A := fun self => (self, Return a).

Definition mbind {A B} (c : method A) (k : A -> method B) : method B :=
  fun self =>
    match c self with
    | (self', Return a) => k a self'
    | (self', Raise e) => (self', Raise e)
    end.

Definition attr {A} (get : Solution -> A) : method A :=
  fun self => (self, Return (get self)).

Definition assign {A} (set : Solution -> A -> Solution) (v : A) : method unit :=
  fun self => (set self v, Return tt).

Definition eval {A} (c : result A) : method A := fun self => (self, c).

Notation "x <~ c ;; k" := (mbind c (fun x => k))
  (at level 61, c at next level, right associativity).
Notation "c ;;; k" := (mbind c (fun _ => k))
  (at level 61, right associativity).

Section Driver.

Variable solve_ivp : integrator F.

(** [Solution.solver]. *)
Definition solver : method (OdeResult.type F) :=
  model <~ attr model ;;
  protocol <~ attr protocol ;;
  step_func <~
    (if subcutaneous protocol then
       a <~ eval (np_zeros (size model + 1)) ;;
       assign set_y0 a ;;;
       a <~ eval (np_zeros (size model + 1)) ;;
       assign set_sol (SolArray a) ;;;
       mret (rhs_subcutaneous model protocol)
     else
       a <~ eval (np_zeros (size model)) ;;
       assign set_y0 a ;;;
       a <~ eval (np_zeros (size model)) ;;
       assign set_sol (SolArray a) ;;;
       mret (rhs_intravenous model protocol)) ;;
  t_eval <~ attr t_eval ;;
  t_first <~ eval (getitem t_eval 0) ;;
  t_last <~ eval (getitem t_eval (-1)) ;;
  y0 <~ attr y0 ;;
  sol <~ eval (solve_ivp (fun t y => step_func t y) (t_first, t_last)
                 (match y0 with Some a => a | None => [] end) t_eval) ;;
  assign set_sol (SolResult sol) ;;;
  mret sol.

(** [Solution.__init__]: the constructor gives the object, unless it
    raises.  The defaults are [tmax=1] and [nsteps=1000]. *)
Definition __init__ (model : Model) (protocol : Protocol) (tmax : F)
  (nsteps : Z) : result Solution :=
  grid <- np_linspace zero tmax nsteps ;;
  let self := {| model := model; protocol := protocol; t_eval := grid;
                 y0 := None; sol := None |} in
  match solver self with
  | (self', Return _) => Return self'
  | (_, Raise e) => Raise e
  end.

(** One plotted curve: the subplot it goes to, its label and its data. *)
Record Line : Type := {
  axes : Z;
  label : string;
  xdata : list F;
  ydata : list F
}.

(** [Solution.generate_plot]: the curves handed to the plotting library, in
    drawing order.  The figure itself, its legends, titles and axis labels
    are not modelled, nor are the errors of the plotting library; [sol.y]
    is read as an array of rows, which it is as soon as the integrator has
    reported one time. *)
Definition generate_plot (separate : bool) : method (list Line) :=
  sol <~ solver ;;
  model <~ attr model ;;
  let n := size model in
  row <~ eval (getitem (OdeResult.y sol) 0) ;;
  let lines := [ {| axes := 1; label := "- q_c";
                    xdata := OdeResult.t sol; ydata := row |} ] in
  eval (for_each (range 0 (n - 1))
          (fun lines i =>
             let label := ("- q_p" ++ str (i + 2))%string in
             row <- getitem (OdeResult.y sol) (i + 1) ;;
             Return (lines ++ [ {| axes := if separate then i + 2 else 1;
                                   label := label;
                                   xdata := OdeResult.t sol;
                                   ydata := row |} ]))
          lines).

End Driver.

End Flux.

Arguments Model F : clear implicits.
Arguments Protocol F : clear implicits.
Arguments Solution F : clear implicits.
Arguments sol_attr F : clear implicits.
Arguments Line F : clear implicits.
Arguments method F A : clear implicits.

(** ** A reference integrator

    The theorems below hold for every integrator.  To run the driver on
    concrete inputs, [euler_ivp] implements the interface with the explicit
    Euler scheme on the requested times and a budget of steps: it evaluates
    the right-hand side once per step, and when the budget runs out before
    the last requested time it reports failure together with the part of the
    trajectory computed so far. *)

Section Euler.

Context {F : Type} {N : Number F}.

(** [y + h * k], componentwise. *)
Definition axpy (h : F) (k y : list F) : list F :=
  map (fun '(yi, ki) => (yi + h * ki)%num) (combine y k).

Fixpoint euler_walk (f : rhs_function F) (budget : nat) (t : F) (y : list F)
  (todo : list F) {struct todo} : result (list (list F) * bool) :=
  match todo with
  | [] => Return ([], true)
  | t' :: todo' =>
      match budget with
      | O => Return ([], false)
      | S budget' =>
          k <- f t y ;;
          let y' := axpy (t' - t)%num k y in
          '(ys, finished) <- euler_walk f budget' t' y' todo' ;;
          Return (y' :: ys, finished)
      end
  end.

Definition transpose (n : nat) (states : list (list F)) : list (list F) :=
  map (fun i => map (fun s => nth i s zero) states) (seq 0 n).

Definition euler_ivp (max_steps : nat) : integrator F :=
  fun f t_span y0 t_eval =>
    match t_eval with
    | [] => Return {| OdeResult.t := [];
                      OdeResult.y := transpose (length y0) [];
                      OdeResult.nfev := 0;
                      OdeResult.status := 0;
                      OdeResult.success := true |}
    | t0 :: todo =>
        '(ys, finished) <- euler_walk f max_steps t0 y0 todo ;;
        let states := y0 :: ys in
        Return {| OdeResult.t := firstn (length states) t_eval;
                  OdeResult.y := transpose (length y0) states;
                  OdeResult.nfev := Z.of_nat (length ys);
                  OdeResult.status := if finished then 0 else -1;
                  OdeResult.success := finished |}
    end.

End Euler.

(** ** Concrete inputs

    One central and one peripheral compartment with unit volumes, unit
    transfer rate and the given clearance, and a constant dose rate. *)

Definition two_compartments {F} `{Number F} (clearance : F) : Model F :=
  {| size := 2; Vc := of_Z 1; CL := clearance;
     Qps := [of_Z 1]; Vps := [of_Z 1] |}.

Definition constant_dose {F} `{Number F} (sc : bool) (rate : F) : Protocol F :=
  {| subcutaneous := sc; dose_time_function := fun _ => rate;
     k_a := of_Z 1 |}.

(** The same compartments with a central volume of zero. *)
Definition zero_volume : Model float :=
  {| size := 2; Vc := 0%float; CL := 1%float;
     Qps := [1%float]; Vps := [1%float] |}.

(** Inputs in tenths, which binary64 rounds: two compartments without
    clearance, and three compartments with a depot dosed at the rate
    [0.1 * t]. *)
#[local] Set Warnings "-inexact-float".

Definition no_clearance : Model float :=
  {| size := 2; Vc := 2%float; CL := 0%float;
     Qps := [2.4%float]; Vps := [0.4%float] |}.

Definition three_compartments : Model float :=
  {| size := 3; Vc := 0.3%float; CL := 0.7%float;
     Qps := [0.1%float; 0.2%float]; Vps := [0.3%float; 0.7%float] |}.

Definition ramp_dose : Protocol float :=
  {| subcutaneous := true;
     dose_time_function := fun t => (0.1 * t)%float;
     k_a := 0.9%float |}.

(** A freshly built object, before [solver] has run. *)
Definition unsolved {F} (model : Model F) (protocol : Protocol F)
  (grid : list F) : Solution F :=
  {| model := model; protocol := protocol; t_eval := grid;
     y0 := None; sol := None |}.

(** ** Running the definitions (binary64) *)

Example rhs_intravenous_run :
  rhs_intravenous
    {| size := 3; Vc := 1%float; CL := 1%float;
       Qps := [1%float; 2%float]; Vps := [1%float; 0.5%float] |}
    (constant_dose false 1%float) 0%float [1%float; 2%float; 3%float]
  = Return [11%float; (-1)%float; (-10)%float].
Proof. vm_compute. reflexivity. Qed.

Example rhs_subcutaneous_run :
  rhs_subcutaneous
    {| size := 3; Vc := 1%float; CL := 1%float;
       Qps := [1%float; 2%float]; Vps := [1%float; 0.5%float] |}
    (constant_dose true 1%float) 0%float
    [0.5%float; 1%float; 2%float; 3%float]
  = Return [0.5%float; 10.5%float; (-1)%float; (-10)%float].
Proof. vm_compute. reflexivity. Qed.

(** A state that is too short for the model. *)
Example rhs_subcutaneous_short_state :
  rhs_subcutaneous (two_compartments 1%float) (constant_dose true 1%float)
    0%float [0.5%float; 1%float]
  = Raise IndexError.
Proof. vm_compute. reflexivity. Qed.

Example np_linspace_run :
  np_linspace 0%float 1%float 5
  = Return [0%float; 0.25%float; 0.5%float; 0.75%float; 1%float].
Proof. vm_compute. reflexivity. Qed.

(** Two compartments, unit parameters, unit dose rate, [tmax=1],
    [nsteps=2], with the reference integrator. *)
Example constructor_run :
  exists self,
    __init__ (euler_ivp 1000) (two_compartments 1%float)
      (constant_dose false 1%float) 1%float 2 = Return self /\
    t_eval self = [0%float; 1%float] /\
    y0 self = Some [0%float; 0%float] /\
    sol self
    = Some (SolResult {| OdeResult.t := [0%float; 1%float];
                         OdeResult.y := [[0%float; 1%float];
                                         [0%float; 0%float]];
                         OdeResult.nfev := 1;
                         OdeResult.status := 0;
                         OdeResult.success := true |}).
Proof. eexists. split; [vm_compute; reflexivity |]. repeat split. Qed.

Example generate_plot_run :
  snd (generate_plot (euler_ivp 1000) true
         (unsolved (two_compartments 1%float) (constant_dose false 1%float)
            [0%float; 0.5%float; 1%float]))
  = Return [ {| axes := 1; label := "- q_c";
                xdata := [0%float; 0.5%float; 1%float];
                ydata := [0%float; 0.5%float; 0.5%float] |};
             {| axes := 2; label := "- q_p2";
                xdata := [0%float; 0.5%float; 1%float];
                ydata := [0%float; 0%float; 0.25%float] |} ].
Proof. vm_compute. reflexivity. Qed.

(** ** Notions used in the statements *)

(** Python's [sum]: the entries added from the left, starting at [0]. *)
Definition py_sum {F} `{Number F} (l : list F) : F := fold_left add l zero.

Section Fluxes.

Context {F : Type} {N : Number F}.
Variables (model : Model F) (y : list F).

(** The flux between the central compartment, stored at index [c] of the
    state, and the peripheral compartment [comp], stored at index [c + comp]
    ([c] is [0] in the intravenous layout and [1] in the subcutaneous one). *)
Definition flux (c : Z) (comp : Z) : F :=
  (nth (Z.to_nat (comp - 1)) (Qps model) zero
   * (nth (Z.to_nat c) y zero / Vc model
      - nth (Z.to_nat (c + comp)) y zero
        / nth (Z.to_nat (comp - 1)) (Vps model) zero))%num.

Definition fluxes (c : Z) : list F := map (flux c) (range 1 (size model)).

(** What the lengths must allow for the loops to run through: every index
    the right-hand side reads exists.  [c] is the index of the central
    compartment in the state. *)
Definition indexable (c : Z) : Prop :=
  size model - 1 <= Z.of_nat (length (Qps model)) /\
  size model - 1 <= Z.of_nat (length (Vps model)) /\
  c + 1 <= Z.of_nat (length y) /\
  c + size model <= Z.of_nat (length y).

End Fluxes.

Section Regimen.

Context {F : Type} {N : Number F}.

(** The right-hand side and the number of pools the regimen selects. *)
Definition step_function (model : Model F) (protocol : Protocol F)
  : rhs_function F :=
  if subcutaneous protocol then rhs_subcutaneous model protocol
  else rhs_intravenous model protocol.

Definition pools (model : Model F) (protocol : Protocol F) : Z :=
  if subcutaneous protocol then size model + 1 else size model.

(** The object the constructor gives when the integrator returned [r] for
    the times [grid]. *)
Definition solved (model : Model F) (protocol : Protocol F) (grid : list F)
  (r : OdeResult.type F) : Solution F :=
  {| model := model; protocol := protocol; t_eval := grid;
     y0 := Some (repeat zero (Z.to_nat (pools model protocol)));
     sol := Some (SolResult r) |}.

(** An integrator that, when it succeeds, reports the state at exactly the
    requested times. *)
Definition reports_requested_times (solve_ivp : integrator F) : Prop :=
  forall f t_span y0 t_eval r,
    solve_ivp f t_span y0 t_eval = Return r ->
    OdeResult.success r = true ->
    OdeResult.t r = t_eval.

End Regimen.

(** The sum of the first [n] values of [f]. *)
Fixpoint partial_sum (f : nat -> R) (n : nat) : R :=
  match n with
  | O => 0%R
  | S k => (partial_sum f k + f k)%R
  end.

(** [q] is an exact trajectory of the system with right-hand side [rhs]
    between the times [a] and [b]: at every time in between, the derivative
    of each component of the state is the corresponding entry of the
    derivative vector. *)
Definition trajectory_of (rhs : rhs_function R) (q : R -> list R)
  (a b : R) : Prop :=
  forall t, (a <= t <= b)%R ->
    exists dq_dt,
      rhs t (q t) = Return dq_dt /\
      forall i, (i < length dq_dt)%nat ->
        derivable_pt_lim (fun s => nth i (q s) 0%R) t (nth i dq_dt 0%R).

(** The [i]-th of [num] samples between [start] and [stop], as the array
    library computes it before it overwrites the last one. *)
Definition sample {F} `{Number F} (start stop : F) (num i : Z) : F :=
  let delta := (stop - start)%num in
  let step := (delta / of_Z (num - 1))%num in
  if eqb step zero
  then (of_Z i / of_Z (num - 1) * delta + start)%num
  else (of_Z i * step + start)%num.

(** The protocol seen by the central compartment in the subcutaneous
    regimen: what reaches it at any time is what the depot, holding
    [depot], releases. *)
Definition fed_by_depot {F} `{Number F} (protocol : Protocol F) (depot : F)
  : Protocol F :=
  {| subcutaneous := subcutaneous protocol;
     dose_time_function := fun _ => (k_a protocol * depot)%num;
     k_a := k_a protocol |}.

(** [a * u + b * v], componentwise. *)
Definition lincomb (a b : R) (u v : list R) : list R :=
  map (fun '(x, z) => (a * x + b * z)%R) (combine u v).

(** The curve drawn for row [k] of the result: row [0] is the central
    compartment. *)
Definition curve {F} (separate : bool) (r : OdeResult.type F) (k : Z)
  (row : list F) : Line F :=
  {| axes := if separate then k + 1 else 1;
     label := if k =? 0 then "- q_c" else ("- q_p" ++ str (k + 1))%string;
     xdata := OdeResult.t r;
     ydata := row |}.

(** * Properties *)

(** ** Sequences *)

Lemma getitem_nth {A} (l : list A) (i : Z) (d : A) :
  0 <= i < Z.of_nat (length l) ->
  getitem l i = Return (nth (Z.to_nat i) l d).
Proof.
  intros Hi. unfold getitem.
  destruct (Z.ltb_spec i 0) as [Hneg | _]; [lia |].
  destruct (Z.ltb_spec i 0) as [Hneg | _]; [lia |].
  destruct (Z.leb_spec (Z.of_nat (length l)) i) as [Hbig | _]; [lia |].
  cbn [orb].
  assert (Hlt : (Z.to_nat i < length l)%nat) by lia.
  destruct (nth_error l (Z.to_nat i)) as [x |] eqn:E.
  - f_equal. symmetry. now apply nth_error_nth.
  - apply nth_error_None in E. lia.
Qed.

Lemma getitem_last {A} (l : list A) (d : A) :
  l <> [] -> getitem l (-1) = Return (nth (length l - 1) l d).
Proof.
  intros Hl. unfold getitem. cbn [Z.ltb Z.compare].
  assert (0 < Z.of_nat (length l)).
  { destruct l; [congruence | cbn [length]; lia]. }
  destruct (Z.ltb_spec (-1 + Z.of_nat (length l)) 0); [lia |].
  destruct (Z.leb_spec (Z.of_nat (length l)) (-1 + Z.of_nat (length l)));
    [lia |].
  cbn [orb].
  replace (Z.to_nat (-1 + Z.of_nat (length l))) with (length l - 1)%nat by lia.
  destruct (nth_error l (length l - 1)) as [x |] eqn:E.
  - f_equal. symmetry. now apply nth_error_nth.
  - apply nth_error_None in E. lia.
Qed.

Lemma setitem_replace {A} (l : list A) (i : Z) (v : A) :
  0 <= i < Z.of_nat (length l) ->
  setitem l i v = Return (replace_nth l (Z.to_nat i) v).
Proof.
  intros Hi. unfold setitem.
  destruct (Z.ltb_spec i 0); [lia |].
  destruct (Z.ltb_spec i 0); [lia |].
  destruct (Z.leb_spec (Z.of_nat (length l)) i); [lia | reflexivity].
Qed.

Lemma setitem_last {A} (l : list A) (v : A) :
  l <> [] -> setitem l (-1) v = Return (replace_nth l (length l - 1) v).
Proof.
  intros Hl. unfold setitem. cbn [Z.ltb Z.compare].
  assert (0 < Z.of_nat (length l)).
  { destruct l; [congruence | cbn [length]; lia]. }
  destruct (Z.ltb_spec (-1 + Z.of_nat (length l)) 0); [lia |].
  destruct (Z.leb_spec (Z.of_nat (length l)) (-1 + Z.of_nat (length l)));
    [lia |].
  cbn [orb]. do 2 f_equal. lia.
Qed.

Lemma in_range (lo hi c : Z) : In c (range lo hi) <-> lo <= c < hi.
Proof.
  unfold range. rewrite in_map_iff. split.
  - intros (k & <- & Hk). apply in_seq in Hk. lia.
  - intros Hc. exists (Z.to_nat (c - lo)). split; [lia |].
    apply in_seq. lia.
Qed.

Lemma length_range (lo hi : Z) : length (range lo hi) = Z.to_nat (hi - lo).
Proof. unfold range. now rewrite length_map, length_seq. Qed.

Lemma nth_range (lo hi : Z) (k : nat) (d : Z) :
  (k < Z.to_nat (hi - lo))%nat -> nth k (range lo hi) d = lo + Z.of_nat k.
Proof.
  intros Hk. unfold range.
  rewrite nth_indep with (d' := lo + Z.of_nat 0)
    by now rewrite length_map, length_seq.
  rewrite (map_nth (fun k => lo + Z.of_nat k)).
  now rewrite seq_nth.
Qed.

(** ** Loops *)

Lemma for_each_invariant {A S} (P : S -> Prop) (body : S -> A -> result S) :
  (forall acc x acc', P acc -> body acc x = Return acc' -> P acc') ->
  forall xs acc acc',
    P acc -> for_each xs body acc = Return acc' -> P acc'.
Proof.
  intros Hbody. induction xs as [| x xs IH]; intros acc acc' Hacc Hrun;
    cbn in Hrun.
  - now injection Hrun as <-.
  - destruct (body acc x) as [acc1 |] eqn:Hstep; [| discriminate].
    cbn [bind] in Hrun. eauto.
Qed.

Section Loop.

Context {F : Type} {N : Number F}.

(** A loop whose body appends [g comp] and adds it to the running sum. *)
Lemma for_each_accumulate (body : list F * F -> Z -> result (list F * F))
  (g : Z -> F) (comps : list Z) :
  (forall dq fs comp, In comp comps ->
     body (dq, fs) comp = Return (dq ++ [g comp], (fs + g comp)%num)) ->
  forall dq fs,
    for_each comps body (dq, fs)
    = Return (dq ++ map g comps, fold_left add (map g comps) fs).
Proof.
  induction comps as [| comp comps IH]; intros Hbody dq fs; cbn.
  - now rewrite app_nil_r.
  - rewrite Hbody by now left. cbn.
    rewrite IH by (intros; apply Hbody; now right).
    now rewrite <- app_assoc.
Qed.

Variables (model : Model F) (protocol : Protocol F) (t : F) (y : list F).

(** The intravenous right-hand side in closed form. *)
Lemma rhs_intravenous_eq :
  indexable model y 0 ->
  rhs_intravenous model protocol t y
  = Return ((dose_time_function protocol t
             - nth 0 y zero / Vc model * CL model
             - py_sum (fluxes model y 0))%num
            :: fluxes model y 0).
Proof.
  intros (HQ & HV & Hy1 & Hy). unfold rhs_intravenous.
  rewrite (getitem_nth y 0 zero) by lia. cbn [bind].
  rewrite (for_each_accumulate _ (flux model y 0)).
  - cbn [bind app]. reflexivity.
  - intros dq fs comp Hc. apply in_range in Hc.
    rewrite (getitem_nth (Qps model) (comp - 1) zero) by lia.
    rewrite (getitem_nth (Vps model) (comp - 1) zero) by lia.
    rewrite (getitem_nth y comp zero) by lia.
    reflexivity.
Qed.

(** The subcutaneous right-hand side in closed form. *)
Lemma rhs_subcutaneous_eq :
  indexable model y 1 ->
  rhs_subcutaneous model protocol t y
  = Return ((dose_time_function protocol t - k_a protocol * nth 0 y zero)%num
            :: (k_a protocol * nth 0 y zero
                - nth 1 y zero / Vc model * CL model
                - py_sum (fluxes model y 1))%num
            :: fluxes model y 1).
Proof.
  intros (HQ & HV & Hy1 & Hy). unfold rhs_subcutaneous.
  rewrite (getitem_nth y 1 zero) by lia. cbn [bind].
  rewrite (getitem_nth y 0 zero) by lia. cbn [bind].
  change (setitem [zero; zero] 0 ?v) with (Return [v; @zero F N]).
  cbn [bind].
  rewrite (for_each_accumulate _ (flux model y 1)).
  - cbn [bind app].
    rewrite setitem_replace by (cbn [length]; lia). reflexivity.
  - intros dq fs comp Hc. apply in_range in Hc.
    rewrite (getitem_nth (Qps model) (comp - 1) zero) by lia.
    rewrite (getitem_nth (Vps model) (comp - 1) zero) by lia.
    rewrite (getitem_nth y (comp + 1) zero) by lia.
    cbn [bind]. unfold flux.
    now replace (1 + comp) with (comp + 1) by lia.
Qed.

End Loop.

(** ** The entries of the derivative vectors *)

Section Entries.

Context {F : Type} {N : Number F}.
Variables (model : Model F) (y : list F) (c : Z).

Lemma length_fluxes : length (fluxes model y c) = Z.to_nat (size model - 1).
Proof. unfold fluxes. now rewrite length_map, length_range. Qed.

Lemma nth_fluxes (i : Z) :
  1 <= i < size model ->
  nth (Z.to_nat (i - 1)) (fluxes model y c) zero = flux model y c i.
Proof.
  intros Hi. unfold fluxes.
  rewrite nth_indep with (d' := flux model y c 0)
    by (rewrite length_map, length_range; lia).
  rewrite map_nth, nth_range by lia.
  f_equal. lia.
Qed.

(** Entry [k + i] of a vector that carries the fluxes after [k] leading
    entries is the flux of the peripheral compartment [i]. *)
Lemma getitem_fluxes (front : list F) (i k : Z) :
  1 <= i < size model ->
  k = Z.of_nat (length front) + i - 1 ->
  getitem (front ++ fluxes model y c) k = Return (flux model y c i).
Proof.
  intros Hi ->.
  rewrite (getitem_nth _ _ zero)
    by (rewrite length_app, length_fluxes; lia).
  rewrite app_nth2 by lia.
  replace (Z.to_nat (Z.of_nat (length front) + i - 1) - length front)%nat
    with (Z.to_nat (i - 1)) by lia.
  now rewrite nth_fluxes.
Qed.

(** The flux of compartment [i], from the values the source reads. *)
Lemma flux_getitem (i : Z) :
  0 <= c -> 1 <= i ->
  i - 1 < Z.of_nat (length (Qps model)) ->
  i - 1 < Z.of_nat (length (Vps model)) ->
  c + i < Z.of_nat (length y) ->
  exists Q_pi V_pi s_c s_i,
    getitem (Qps model) (i - 1) = Return Q_pi /\
    getitem (Vps model) (i - 1) = Return V_pi /\
    getitem y c = Return s_c /\
    getitem y (c + i) = Return s_i /\
    flux model y c i = (Q_pi * (s_c / Vc model - s_i / V_pi))%num.
Proof.
  intros Hc Hi HQ HV Hy.
  exists (nth (Z.to_nat (i - 1)) (Qps model) zero),
         (nth (Z.to_nat (i - 1)) (Vps model) zero),
         (nth (Z.to_nat c) y zero),
         (nth (Z.to_nat (c + i)) y zero).
  repeat split; try (apply getitem_nth; lia).
Qed.

End Entries.

(** C1.  The intravenous right-hand side.  For a model whose peripheral
    parameter lists have length [size - 1] and a state of length [size], the
    call returns a vector of the length of the state; its entry [i], for
    every peripheral index [i] in [1 .. size - 1], is
    [Qps[i-1] * (state[0]/Vc - state[i]/Vps[i-1])], and its entry [0] is
    [dose(t) - state[0]/Vc*CL] minus the sum of the peripheral entries.  This
    holds for every arithmetic, so in particular for positive [Vc],
    non-negative [CL] and non-negative states. *)
Theorem rhs_intravenous_entries {F : Type} {N : Number F}
  (model : Model F) (protocol : Protocol F) (t : F) (y : list F) :
  Z.of_nat (length (Qps model)) = size model - 1 ->
  Z.of_nat (length (Vps model)) = size model - 1 ->
  Z.of_nat (length y) = size model ->
  exists dq_dt,
    rhs_intravenous model protocol t y = Return dq_dt /\
    length dq_dt = length y /\
    (forall i, 1 <= i < size model ->
       exists Q_pi V_pi s_0 s_i,
         getitem (Qps model) (i - 1) = Return Q_pi /\
         getitem (Vps model) (i - 1) = Return V_pi /\
         getitem y 0 = Return s_0 /\
         getitem y i = Return s_i /\
         getitem dq_dt i
         = Return (Q_pi * (s_0 / Vc model - s_i / V_pi))%num) /\
    (exists s_0,
       getitem y 0 = Return s_0 /\
       getitem dq_dt 0
       = Return (dose_time_function protocol t - s_0 / Vc model * CL model
                 - py_sum (tl dq_dt))%num).
Proof.
  intros HQ HV Hy.
  eexists. split; [apply rhs_intravenous_eq; unfold indexable; lia |].
  split; [cbn [length]; rewrite length_fluxes; lia |].
  split.
  - intros i Hi.
    destruct (flux_getitem model y 0 i)
      as (Q & V & s0 & si & EQ & EV & E0 & Ei & Efl); try lia.
    exists Q, V, s0, si. repeat split; try assumption.
    rewrite <- Efl.
    apply (getitem_fluxes model y 0 [_] i); [assumption | cbn [length]; lia].
  - exists (nth 0 y zero). split; [apply (getitem_nth y 0); lia | reflexivity].
Qed.

Lemma rhs_intravenous_entries_witness :
  exists dq_dt,
    rhs_intravenous (two_compartments 1%float) (constant_dose false 1%float)
      0%float [0.5%float; 0.25%float] = Return dq_dt /\
    length dq_dt = 2%nat.
Proof.
  destruct (rhs_intravenous_entries (two_compartments 1%float)
              (constant_dose false 1%float) 0%float [0.5%float; 0.25%float]
              eq_refl eq_refl eq_refl) as (dq_dt & Hrun & Hlen & _).
  exists dq_dt. split; assumption.
Defined.

(** C2.  The subcutaneous right-hand side.  For a model as above and a state
    of length [size + 1] with the depot first, the call returns a vector of
    length [size + 1]; its entry [0] is [dose(t) - k_a*state[0]], its entry
    [i + 1], for every peripheral index [i] in [1 .. size - 1], is
    [Qps[i-1] * (state[1]/Vc - state[i+1]/Vps[i-1])], and its entry [1] is
    [k_a*state[0] - state[1]/Vc*CL] minus the sum of the peripheral
    entries. *)
Theorem rhs_subcutaneous_entries {F : Type} {N : Number F}
  (model : Model F) (protocol : Protocol F) (t : F) (y : list F) :
  Z.of_nat (length (Qps model)) = size model - 1 ->
  Z.of_nat (length (Vps model)) = size model - 1 ->
  Z.of_nat (length y) = size model + 1 ->
  exists dq_dt s_0 s_1,
    rhs_subcutaneous model protocol t y = Return dq_dt /\
    Z.of_nat (length dq_dt) = size model + 1 /\
    getitem y 0 = Return s_0 /\
    getitem y 1 = Return s_1 /\
    getitem dq_dt 0
    = Return (dose_time_function protocol t - k_a protocol * s_0)%num /\
    (forall i, 1 <= i < size model ->
       exists Q_pi V_pi s_i,
         getitem (Qps model) (i - 1) = Return Q_pi /\
         getitem (Vps model) (i - 1) = Return V_pi /\
         getitem y (i + 1) = Return s_i /\
         getitem dq_dt (i + 1)
         = Return (Q_pi * (s_1 / Vc model - s_i / V_pi))%num) /\
    getitem dq_dt 1
    = Return (k_a protocol * s_0 - s_1 / Vc model * CL model
              - py_sum (tl (tl dq_dt)))%num.
Proof.
  intros HQ HV Hy.
  eexists. exists (nth 0 y zero), (nth 1 y zero).
  split; [apply rhs_subcutaneous_eq; unfold indexable; lia |].
  split; [cbn [length]; rewrite length_fluxes; lia |].
  split; [apply (getitem_nth y 0); lia |].
  split; [apply (getitem_nth y 1); lia |].
  split; [reflexivity |].
  split; [| now rewrite (getitem_nth _ 1 zero) by (cbn [length]; lia)].
  intros i Hi.
  destruct (flux_getitem model y 1 i)
    as (Q & V & s1 & si & EQ & EV & E1 & Ei & Efl); try lia.
  exists Q, V, si.
  rewrite (getitem_nth y 1 zero) in E1 by lia.
  change (Z.to_nat 1) with 1%nat in E1.
  injection E1 as <-.
  replace (i + 1) with (1 + i) by lia.
  repeat split; try assumption.
  rewrite <- Efl.
  apply (getitem_fluxes model y 1 [_; _] i); [assumption | cbn [length]; lia].
Qed.

Lemma rhs_subcutaneous_entries_witness :
  exists dq_dt,
    rhs_subcutaneous (two_compartments 1%float) (constant_dose true 1%float)
      0%float [1%float; 0.5%float; 0.25%float] = Return dq_dt /\
    Z.of_nat (length dq_dt) = 3.
Proof.
  destruct (rhs_subcutaneous_entries (two_compartments 1%float)
              (constant_dose true 1%float) 0%float
              [1%float; 0.5%float; 0.25%float] eq_refl eq_refl eq_refl)
    as (dq_dt & _ & _ & Hrun & Hlen & _).
  exists dq_dt. split; assumption.
Defined.

(** ** Exact arithmetic *)

Section Reals.

Local Open Scope R_scope.

Lemma fold_left_Rplus (l : list R) (a : R) :
  fold_left Rplus l a = a + fold_left Rplus l 0.
Proof.
  revert a. induction l as [| x l IH]; intros a; cbn.
  - ring.
  - rewrite (IH (a + x)), (IH (0 + x)). ring.
Qed.

Lemma py_sum_cons (x : R) (l : list R) : py_sum (x :: l) = x + py_sum l.
Proof.
  unfold py_sum. cbn. rewrite fold_left_Rplus. ring.
Qed.

(** The closed forms, with the operations of the reals. *)
Lemma rhs_intravenous_R (model : Model R) (protocol : Protocol R) (t : R)
  (y : list R) :
  indexable model y 0 ->
  rhs_intravenous model protocol t y
  = Return ((dose_time_function protocol t - nth 0 y 0 / Vc model * CL model
             - py_sum (fluxes model y 0))
            :: fluxes model y 0).
Proof. exact (rhs_intravenous_eq model protocol t y). Qed.

Lemma rhs_subcutaneous_R (model : Model R) (protocol : Protocol R) (t : R)
  (y : list R) :
  indexable model y 1 ->
  rhs_subcutaneous model protocol t y
  = Return ((dose_time_function protocol t - k_a protocol * nth 0 y 0)
            :: (k_a protocol * nth 0 y 0 - nth 1 y 0 / Vc model * CL model
                - py_sum (fluxes model y 1))
            :: fluxes model y 1).
Proof. exact (rhs_subcutaneous_eq model protocol t y). Qed.

(** The entries of the intravenous derivative add up to what is dosed minus
    what is cleared. *)
Lemma py_sum_rhs_intravenous (model : Model R) (protocol : Protocol R)
  (t : R) (y : list R) :
  indexable model y 0 ->
  exists dq_dt,
    rhs_intravenous model protocol t y = Return dq_dt /\
    py_sum dq_dt
    = dose_time_function protocol t - nth 0 y 0 / Vc model * CL model.
Proof.
  intros Hy. eexists. split; [now apply rhs_intravenous_R |].
  rewrite py_sum_cons. ring.
Qed.

(** The same for the subcutaneous derivative: what leaves the depot by
    absorption enters the central compartment. *)
Lemma py_sum_rhs_subcutaneous (model : Model R) (protocol : Protocol R)
  (t : R) (y : list R) :
  indexable model y 1 ->
  exists dq_dt,
    rhs_subcutaneous model protocol t y = Return dq_dt /\
    py_sum dq_dt
    = dose_time_function protocol t - nth 1 y 0 / Vc model * CL model.
Proof.
  intros Hy. eexists. split; [now apply rhs_subcutaneous_R |].
  rewrite !py_sum_cons. ring.
Qed.

(** C6.  No peripheral compartment ([size = 1]).  The flux loop runs zero
    times and both right-hand sides return, whatever [Qps] and [Vps] hold
    (they are not read): the intravenous one gives
    [[dose(t) - state[0]/Vc*CL]] and the subcutaneous one
    [[dose(t) - k_a*state[0], k_a*state[0] - state[1]/Vc*CL]]. *)
Theorem rhs_without_peripherals (vc cl : R) (qps vps : list R)
  (protocol : Protocol R) (t s_0 s_1 : R) :
  let model := {| size := 1; Vc := vc; CL := cl; Qps := qps; Vps := vps |} in
  range 1 (size model) = [] /\
  rhs_intravenous model protocol t [s_0]
  = Return [dose_time_function protocol t - s_0 / vc * cl] /\
  rhs_subcutaneous model protocol t [s_0; s_1]
  = Return [dose_time_function protocol t - k_a protocol * s_0;
            k_a protocol * s_0 - s_1 / vc * cl].
Proof.
  intros model. split; [reflexivity |]. split.
  - rewrite rhs_intravenous_R by (unfold indexable; cbn; lia).
    cbn. do 2 f_equal. unfold py_sum, zero. cbn. ring.
  - rewrite rhs_subcutaneous_R by (unfold indexable; cbn; lia).
    cbn. do 3 f_equal. unfold py_sum, zero. cbn. ring.
Qed.

(** Sums of entries as sums over indices, and their derivatives. *)
Lemma partial_sum_shift (f : nat -> R) (n : nat) :
  partial_sum f (S n) = f O + partial_sum (fun i => f (S i)) n.
Proof.
  induction n as [| n IH].
  - cbn. ring.
  - change (partial_sum f (S (S n))) with (partial_sum f (S n) + f (S n)).
    rewrite IH. cbn. ring.
Qed.

Lemma py_sum_partial_sum (l : list R) :
  py_sum l = partial_sum (fun i => nth i l 0) (length l).
Proof.
  induction l as [| x l IH].
  - reflexivity.
  - rewrite py_sum_cons, IH. cbn [length].
    now rewrite partial_sum_shift.
Qed.

Lemma derivable_pt_lim_partial_sum (c : nat -> R -> R) (d : nat -> R)
  (t : R) (n : nat) :
  (forall i, (i < n)%nat -> derivable_pt_lim (c i) t (d i)) ->
  derivable_pt_lim (fun s => partial_sum (fun i => c i s) n) t
    (partial_sum d n).
Proof.
  induction n as [| n IH]; intros Hc; cbn [partial_sum].
  - apply (derivable_pt_lim_const 0).
  - apply (derivable_pt_lim_plus
             (fun s => partial_sum (fun i => c i s) n) (c n)).
    + apply IH. intros i Hi. apply Hc. lia.
    + apply Hc. lia.
Qed.

(** The integral of a continuous function is the growth of any of its
    antiderivatives. *)
Lemma antiderivative_RiemannInt (f g : R -> R) (a b : R) (Hab : a <= b)
  (Hcont : forall x, a <= x <= b -> continuity_pt f x) :
  antiderivative f g a b ->
  RiemannInt (continuity_implies_RiemannInt Hab Hcont) = g b - g a.
Proof.
  intros Hg.
  destruct (antiderivative_Ucte f g _ a b Hg (RiemannInt_P29 Hab Hcont))
    as (c & Hc).
  rewrite (RiemannInt_P20 Hab (FTC_P1 Hab Hcont)).
  rewrite (Hc a), (Hc b) by lra. ring.
Qed.

(** Along an exact trajectory whose derivative vectors add up to [rate],
    the total mass is an antiderivative of [rate]. *)
Lemma total_mass_antiderivative (rhs : rhs_function R) (q : R -> list R)
  (a b : R) (n : nat) (rate : R -> R) :
  (forall s, length (q s) = n) ->
  trajectory_of rhs q a b ->
  (forall t dq_dt, rhs t (q t) = Return dq_dt ->
     length dq_dt = n /\ py_sum dq_dt = rate t) ->
  a <= b ->
  antiderivative rate (fun s => py_sum (q s)) a b.
Proof.
  intros Hlen Hq Hrate Hab. split; [| assumption].
  intros t Ht.
  destruct (Hq t Ht) as (dq_dt & Hrun & Hderiv).
  destruct (Hrate t dq_dt Hrun) as (Hn & Hsum).
  assert (Hlim : derivable_pt_lim (fun s => py_sum (q s)) t (rate t)).
  { apply derivable_pt_lim_ext
      with (f := fun s => partial_sum (fun i => nth i (q s) 0) n).
    - intros s. now rewrite py_sum_partial_sum, Hlen.
    - rewrite <- Hsum, py_sum_partial_sum, Hn.
      apply (derivable_pt_lim_partial_sum
               (fun i s => nth i (q s) 0) (fun i => nth i dq_dt 0)).
      intros i Hi. apply Hderiv. now rewrite Hn. }
  exists (exist _ (rate t) Hlim). reflexivity.
Qed.

Lemma derivable_pt_lim_affine (a b t : R) :
  derivable_pt_lim (fun s => a * s + b) t a.
Proof.
  intros eps Heps. exists (mkposreal 1 Rlt_0_1). intros h Hh _.
  replace ((a * (t + h) + b - (a * t + b)) / h - a) with 0 by now field.
  now rewrite Rabs_R0.
Qed.

(** C7, in exact arithmetic.  Intravenous regimen without clearance
    ([CL = 0]).  Over the reals, for every time and every state, the entries
    of the derivative vector add up to [dose(t)]: the fluxes move mass
    between the pools and neither create nor destroy any.  So along every
    exact trajectory of the system (a solution of the differential equation,
    not the integrator's approximation of one), the total mass at [tmax] is
    the total mass at [0] plus the integral of the dose over [[0, tmax]];
    from the zero state it is that integral. *)
Theorem intravenous_conserves_mass (model : Model R) (protocol : Protocol R) :
  CL model = 0 ->
  Z.of_nat (length (Qps model)) = (size model - 1)%Z ->
  Z.of_nat (length (Vps model)) = (size model - 1)%Z ->
  (forall t y,
     Z.of_nat (length y) = size model ->
     exists dq_dt,
       rhs_intravenous model protocol t y = Return dq_dt /\
       py_sum dq_dt = dose_time_function protocol t) /\
  (forall (q : R -> list R) (tmax : R) (Htmax : 0 <= tmax)
     (Hdose : forall t, 0 <= t <= tmax ->
              continuity_pt (dose_time_function protocol) t),
     (forall t, Z.of_nat (length (q t)) = size model) ->
     trajectory_of (rhs_intravenous model protocol) q 0 tmax ->
     py_sum (q tmax)
     = py_sum (q 0) + RiemannInt (continuity_implies_RiemannInt Htmax Hdose)).
Proof.
  intros HCL HQ HV.
  assert (Hsum : forall t y,
             Z.of_nat (length y) = size model ->
             exists dq_dt,
               rhs_intravenous model protocol t y = Return dq_dt /\
               length dq_dt = length y /\
               py_sum dq_dt = dose_time_function protocol t).
  { intros t y Hy.
    assert (Hidx : indexable model y 0) by (unfold indexable; lia).
    eexists. split; [now apply rhs_intravenous_R |].
    split; [cbn [length]; rewrite length_fluxes; lia |].
    rewrite py_sum_cons, HCL. ring. }
  split.
  - intros t y Hy. destruct (Hsum t y Hy) as (dq_dt & Hrun & _ & Htotal).
    now exists dq_dt.
  - intros q tmax Htmax Hdose Hlen Hq.
    rewrite (antiderivative_RiemannInt _ (fun s => py_sum (q s))).
    + ring.
    + apply (total_mass_antiderivative (rhs_intravenous model protocol) q
               0 tmax (Z.to_nat (size model))); try assumption.
      * intros s. specialize (Hlen s). lia.
      * intros t dq_dt Hrun.
        destruct (Hsum t (q t) (Hlen t)) as (dq' & Hrun' & Hlen' & Htotal).
        rewrite Hrun in Hrun'. injection Hrun' as <-.
        split; [| assumption]. specialize (Hlen t). lia.
Qed.

(** Two compartments, unit dose rate: from the state [[1/2, 0]] the exact
    trajectory is [[t/2 + 1/2, t/2]]. *)
Lemma intravenous_conserves_mass_witness :
  (exists dq_dt,
     rhs_intravenous (two_compartments 0) (constant_dose false 1) 0 [2; 3]
     = Return dq_dt /\
     py_sum dq_dt = 1) /\
  (exists pr : Riemann_integrable (fun _ => 1) 0 2,
     py_sum [2 / 2 + 1 / 2; 2 / 2]
     = py_sum [0 / 2 + 1 / 2; 0 / 2] + RiemannInt pr).
Proof.
  destruct (intravenous_conserves_mass (two_compartments 0)
              (constant_dose false 1) eq_refl eq_refl eq_refl)
    as (Hrate & Htotal).
  split.
  - apply (Hrate 0 [2; 3]). reflexivity.
  - assert (Htmax : 0 <= 2) by lra.
    assert (Hdose : forall t, 0 <= t <= 2 ->
                      continuity_pt (fun _ : R => 1) t).
    { intros t _. now apply continuity_pt_const. }
    exists (continuity_implies_RiemannInt Htmax Hdose).
    apply (Htotal (fun t => [t / 2 + 1 / 2; t / 2]) 2 Htmax Hdose).
    + reflexivity.
    + intros t _.
      exists [1 - (t / 2 + 1 / 2) / 1 * 0
                - (0 + 1 * ((t / 2 + 1 / 2) / 1 - t / 2 / 1));
              1 * ((t / 2 + 1 / 2) / 1 - t / 2 / 1)].
      split; [reflexivity |].
      intros i Hi. cbn [length] in Hi.
      destruct i as [| [| i]]; [| | lia]; cbn [nth].
      * apply derivable_pt_lim_ext with (f := fun s => / 2 * s + 1 / 2);
          [intros s; field |].
        replace (1 - _ - _) with (/ 2) by field.
        apply derivable_pt_lim_affine.
      * apply derivable_pt_lim_ext with (f := fun s => / 2 * s + 0);
          [intros s; field |].
        replace (1 * _) with (/ 2) by field.
        apply derivable_pt_lim_affine.
Defined.

(** C8.  Subcutaneous regimen, no dosing at time [t] ([dose(t) = 0]).  For a
    positive absorption constant and a non-negative depot, the depot entry
    (index [0]) of the derivative vector is at most zero. *)
Theorem depot_does_not_grow (model : Model R) (protocol : Protocol R)
  (t depot : R) (others : list R) :
  Z.of_nat (length (Qps model)) = (size model - 1)%Z ->
  Z.of_nat (length (Vps model)) = (size model - 1)%Z ->
  Z.of_nat (length (depot :: others)) = (size model + 1)%Z ->
  dose_time_function protocol t = 0 ->
  0 < k_a protocol ->
  0 <= depot ->
  exists dq_dt d_0,
    rhs_subcutaneous model protocol t (depot :: others) = Return dq_dt /\
    getitem dq_dt 0 = Return d_0 /\
    d_0 <= 0.
Proof.
  intros HQ HV Hy Hdose Hka Hdepot.
  do 2 eexists. split.
  - apply rhs_subcutaneous_R. unfold indexable. cbn [length] in *. lia.
  - split; [reflexivity |]. cbn [nth]. rewrite Hdose. nra.
Qed.

Lemma depot_does_not_grow_witness :
  exists dq_dt d_0,
    rhs_subcutaneous (two_compartments 1) (constant_dose true 0) 0 [2; 3; 4]
    = Return dq_dt /\
    getitem dq_dt 0 = Return d_0 /\
    d_0 <= 0.
Proof.
  apply (depot_does_not_grow (two_compartments 1) (constant_dose true 0)
           0 2 [3; 4]); try reflexivity; cbn; lra.
Defined.

(** C9, in exact arithmetic.  Mass balance with clearance, for both
    regimens.  Over the reals the entries of the intravenous derivative add
    up to [dose(t) - state[0]/Vc*CL], those of the subcutaneous derivative
    to [dose(t) - state[1]/Vc*CL]: the two absorption terms [k_a*state[0]]
    cancel, so only the dose adds mass and only the clearance removes it. *)
Theorem mass_balance (model : Model R) (protocol : Protocol R) (t : R) :
  Z.of_nat (length (Qps model)) = (size model - 1)%Z ->
  Z.of_nat (length (Vps model)) = (size model - 1)%Z ->
  (forall y, Z.of_nat (length y) = size model ->
     exists dq_dt s_0,
       rhs_intravenous model protocol t y = Return dq_dt /\
       getitem y 0 = Return s_0 /\
       py_sum dq_dt
       = dose_time_function protocol t - s_0 / Vc model * CL model) /\
  (forall y, Z.of_nat (length y) = (size model + 1)%Z ->
     exists dq_dt s_1,
       rhs_subcutaneous model protocol t y = Return dq_dt /\
       getitem y 1 = Return s_1 /\
       py_sum dq_dt
       = dose_time_function protocol t - s_1 / Vc model * CL model).
Proof.
  intros HQ HV. split; intros y Hy.
  - destruct (py_sum_rhs_intravenous model protocol t y)
      as (dq_dt & Hrun & Hsum).
    { unfold indexable. lia. }
    exists dq_dt, (nth 0 y 0).
    repeat split; try assumption. apply (getitem_nth y 0). lia.
  - destruct (py_sum_rhs_subcutaneous model protocol t y)
      as (dq_dt & Hrun & Hsum).
    { unfold indexable. lia. }
    exists dq_dt, (nth 1 y 0).
    repeat split; try assumption. apply (getitem_nth y 1). lia.
Qed.

Lemma mass_balance_witness :
  exists dq_dt s_1,
    rhs_subcutaneous (two_compartments 1) (constant_dose true 1) 0 [2; 3; 4]
    = Return dq_dt /\
    getitem [2; 3; 4] 1 = Return s_1 /\
    py_sum dq_dt = 1 - s_1 / 1 * 1.
Proof.
  destruct (mass_balance (two_compartments 1) (constant_dose true 1) 0
              eq_refl eq_refl) as (_ & Hsc).
  apply (Hsc [2; 3; 4]). reflexivity.
Defined.

Lemma map_constant {A B} (f : A -> B) (c : B) (l : list A) :
  (forall x, In x l -> f x = c) -> map f l = repeat c (length l).
Proof.
  induction l as [| x l IH]; intros Hf; cbn; [reflexivity |].
  rewrite Hf by now left. f_equal. apply IH. intros; apply Hf; now right.
Qed.

Lemma py_sum_zeros (n : nat) : py_sum (repeat 0 n) = 0.
Proof.
  induction n as [| n IH]; [reflexivity |].
  cbn [repeat]. rewrite py_sum_cons, IH. ring.
Qed.

Lemma fluxes_zero_state (model : Model R) (c : Z) (n : nat) :
  fluxes model (repeat 0 n) c = repeat 0 (Z.to_nat (size model - 1)).
Proof.
  unfold fluxes. rewrite <- (length_range 1 (size model)).
  apply map_constant. intros comp _. unfold flux.
  rewrite !nth_repeat. cbn. unfold Rdiv. ring.
Qed.

(** X1.  No drug, no flux.  Over the reals, for volumes that are not zero:
    with no dosing at time [t], the derivative of the zero state is the zero
    vector, in both regimens: a trajectory that starts in the zero state
    stays there as long as nothing is dosed.  (With a zero volume the code
    divides zero by zero.) *)
Theorem zero_state_stays (model : Model R) (protocol : Protocol R) (t : R) :
  Vc model <> 0 ->
  Forall (fun v => v <> 0) (Vps model) ->
  Z.of_nat (length (Qps model)) = (size model - 1)%Z ->
  Z.of_nat (length (Vps model)) = (size model - 1)%Z ->
  dose_time_function protocol t = 0 ->
  rhs_intravenous model protocol t (repeat 0 (Z.to_nat (size model)))
  = Return (repeat 0 (Z.to_nat (size model))) /\
  rhs_subcutaneous model protocol t (repeat 0 (Z.to_nat (size model + 1)))
  = Return (repeat 0 (Z.to_nat (size model + 1))).
Proof.
  intros _ _ HQ HV Hdose. split.
  - rewrite rhs_intravenous_R
      by (unfold indexable; rewrite repeat_length; lia).
    rewrite fluxes_zero_state, py_sum_zeros, nth_repeat, Hdose.
    replace (Z.to_nat (size model)) with (S (Z.to_nat (size model - 1)))
      by lia.
    cbn [repeat]. do 2 f_equal. unfold Rdiv. ring.
  - rewrite rhs_subcutaneous_R
      by (unfold indexable; rewrite repeat_length; lia).
    rewrite fluxes_zero_state, py_sum_zeros, !nth_repeat, Hdose.
    replace (Z.to_nat (size model + 1))
      with (S (S (Z.to_nat (size model - 1)))) by lia.
    cbn [repeat]. f_equal. f_equal; [ring |].
    f_equal. unfold Rdiv. ring.
Qed.

(** Two compartments: the states are [[0, 0]] and [[0, 0, 0]]. *)
Lemma zero_state_stays_witness :
  rhs_intravenous (two_compartments 1) (constant_dose false 0) 0
    (repeat 0 (Z.to_nat (size (two_compartments 1%R))))
  = Return (repeat 0 (Z.to_nat (size (two_compartments 1%R)))) /\
  rhs_subcutaneous (two_compartments 1) (constant_dose false 0) 0
    (repeat 0 (Z.to_nat (size (two_compartments 1%R) + 1)))
  = Return (repeat 0 (Z.to_nat (size (two_compartments 1%R) + 1))).
Proof.
  assert (HVc : Vc (two_compartments 1%R) <> 0) by (cbn; lra).
  assert (HV : Forall (fun v => v <> 0) (Vps (two_compartments 1%R)))
    by (repeat constructor; cbn; lra).
  exact (zero_state_stays (two_compartments 1) (constant_dose false 0) 0
           HVc HV eq_refl eq_refl eq_refl).
Defined.

End Reals.

(** ** Rounding

    In binary64 the two sums above are those of rounded terms. *)

(** C7, as the claim has it, fails in binary64.  Without clearance, at the
    dose rate [1.4], the central volume [2], the transfer rate [2.4], the
    peripheral volume [0.4] and the state [[0.2, 2.5]], the two entries of
    the derivative add up to [1.4000000000000004]. *)
Lemma intravenous_sum_is_rounded :
  CL no_clearance = 0%float /\
  exists dq_dt,
    rhs_intravenous no_clearance (constant_dose false 1.4%float) 0%float
      [0.2%float; 2.5%float] = Return dq_dt /\
    dq_dt = [16.16%float; (-14.76)%float] /\
    py_sum dq_dt = 1.4000000000000004%float /\
    py_sum dq_dt
    <> dose_time_function (constant_dose false 1.4%float) 0%float.
Proof.
  split; [reflexivity |].
  eexists. split; [vm_compute; reflexivity |].
  split; [reflexivity |]. split; [vm_compute; reflexivity |].
  intros E. apply (f_equal (fun x => PrimFloat.eqb x 1.4%float)) in E.
  vm_compute in E. discriminate.
Qed.

(** C9, as the claim has it, fails in binary64.  For three compartments
    with a depot, at [t = 3] and the state [[0.7, 0.1, 0.2, 0.3]], the four
    entries of the derivative add up to [0.06666666666666668], and
    [dose(t) - state[1]/Vc*CL] is [0.066666666666666707]. *)
Lemma subcutaneous_balance_is_rounded :
  exists dq_dt s_1,
    rhs_subcutaneous three_compartments ramp_dose 3%float
      [0.7%float; 0.1%float; 0.2%float; 0.3%float] = Return dq_dt /\
    getitem [0.7%float; 0.1%float; 0.2%float; 0.3%float] 1 = Return s_1 /\
    py_sum dq_dt = 0.06666666666666668%float /\
    (dose_time_function ramp_dose 3%float
     - s_1 / Vc three_compartments * CL three_compartments)%num
    = 0.066666666666666707%float /\
    py_sum dq_dt
    <> (dose_time_function ramp_dose 3%float
        - s_1 / Vc three_compartments * CL three_compartments)%num.
Proof.
  do 2 eexists. split; [vm_compute; reflexivity |].
  split; [reflexivity |]. split; [vm_compute; reflexivity |].
  split; [vm_compute; reflexivity |].
  intros E.
  apply (f_equal (fun x => PrimFloat.eqb x 0.06666666666666668%float)) in E.
  vm_compute in E. discriminate.
Qed.

(** ** The driver *)

Section DriverFacts.

Context {F : Type} {N : Number F}.
Variable solve_ivp : integrator F.

(** One run of [solver], once the zero state can be built and the grid has
    a first and a last point: the integrator is called, and its outcome is
    the outcome of the method. *)
Lemma solver_eq (self : Solution F) (t_first t_last : F) :
  0 <= pools (model self) (protocol self) ->
  getitem (t_eval self) 0 = Return t_first ->
  getitem (t_eval self) (-1) = Return t_last ->
  let zeros := repeat zero (Z.to_nat (pools (model self) (protocol self))) in
  solver solve_ivp self
  = match solve_ivp (step_function (model self) (protocol self))
            (t_first, t_last) zeros (t_eval self) with
    | Return r => (set_sol (set_y0 self zeros) (SolResult r), Return r)
    | Raise e => (set_sol (set_y0 self zeros) (SolArray zeros), Raise e)
    end.
Proof.
  intros Hn Hfirst Hlast zeros.
  unfold solver, pools, step_function in *.
  unfold mbind at 1 2. cbn [attr].
  destruct (subcutaneous (protocol self)).
  - unfold np_zeros.
    destruct (Z.ltb_spec (size (model self) + 1) 0) as [| _]; [lia |].
    cbn -[getitem]. rewrite Hfirst, Hlast. cbn -[getitem].
    now destruct (solve_ivp _ _ _ _).
  - unfold np_zeros.
    destruct (Z.ltb_spec (size (model self)) 0) as [| _]; [lia |].
    cbn -[getitem]. rewrite Hfirst, Hlast. cbn -[getitem].
    now destruct (solve_ivp _ _ _ _).
Qed.

(** When the zero state cannot be built or the grid is empty, [solver]
    raises before the integrator is called. *)
Lemma solver_negative_size (self : Solution F) :
  pools (model self) (protocol self) < 0 ->
  solver solve_ivp self = (self, Raise ValueError).
Proof.
  intros Hn. unfold solver, pools in *.
  unfold mbind at 1 2. cbn [attr].
  destruct (subcutaneous (protocol self)); unfold np_zeros.
  - destruct (Z.ltb_spec (size (model self) + 1) 0); [reflexivity | lia].
  - destruct (Z.ltb_spec (size (model self)) 0); [reflexivity | lia].
Qed.

Lemma solver_empty_grid (self : Solution F) :
  0 <= pools (model self) (protocol self) ->
  t_eval self = [] ->
  snd (solver solve_ivp self) = Raise IndexError.
Proof.
  intros Hn Hgrid. unfold solver, pools in *.
  unfold mbind at 1 2. cbn [attr].
  destruct (subcutaneous (protocol self)); unfold np_zeros.
  - destruct (Z.ltb_spec (size (model self) + 1) 0) as [| _]; [lia |].
    cbn -[getitem]. now rewrite Hgrid.
  - destruct (Z.ltb_spec (size (model self)) 0) as [| _]; [lia |].
    cbn -[getitem]. now rewrite Hgrid.
Qed.

(** The constructor, once the grid is built. *)
Lemma init_eq (model : Model F) (protocol : Protocol F) (tmax : F)
  (nsteps : Z) (grid : list F) (t_first t_last : F) :
  0 <= pools model protocol ->
  np_linspace zero tmax nsteps = Return grid ->
  getitem grid 0 = Return t_first ->
  getitem grid (-1) = Return t_last ->
  __init__ solve_ivp model protocol tmax nsteps
  = match solve_ivp (step_function model protocol) (t_first, t_last)
            (repeat zero (Z.to_nat (pools model protocol))) grid with
    | Return r => Return (solved model protocol grid r)
    | Raise e => Raise e
    end.
Proof.
  intros Hn Hgrid Hfirst Hlast. unfold __init__.
  rewrite Hgrid. cbn [bind].
  rewrite (solver_eq _ t_first t_last) by assumption.
  cbn -[getitem]. now destruct (solve_ivp _ _ _ _).
Qed.

(** What it takes for the constructor to give an object. *)
Lemma init_inv (model : Model F) (protocol : Protocol F) (tmax : F)
  (nsteps : Z) (self : Solution F) :
  __init__ solve_ivp model protocol tmax nsteps = Return self ->
  exists grid t_first t_last r,
    0 <= pools model protocol /\
    np_linspace zero tmax nsteps = Return grid /\
    getitem grid 0 = Return t_first /\
    getitem grid (-1) = Return t_last /\
    solve_ivp (step_function model protocol) (t_first, t_last)
      (repeat zero (Z.to_nat (pools model protocol))) grid = Return r /\
    self = solved model protocol grid r.
Proof.
  intros Hinit.
  destruct (np_linspace zero tmax nsteps) as [grid | e] eqn:Hgrid.
  2: { unfold __init__ in Hinit. now rewrite Hgrid in Hinit. }
  destruct (Z.ltb_spec (pools model protocol) 0) as [Hneg | Hpools].
  { unfold __init__ in Hinit. rewrite Hgrid in Hinit. cbn [bind] in Hinit.
    now rewrite solver_negative_size in Hinit. }
  destruct grid as [| t0 grid'].
  { unfold __init__ in Hinit. rewrite Hgrid in Hinit. cbn [bind] in Hinit.
    pose proof (solver_empty_grid
                  {| model := model; protocol := protocol; t_eval := [];
                     y0 := None; sol := None |} Hpools eq_refl) as Hraise.
    destruct (solver _ _) as [self' [r | e]]; cbn in Hraise; congruence. }
  exists (t0 :: grid'), t0, (nth (length (t0 :: grid') - 1) (t0 :: grid') t0).
  assert (Hlast : getitem (t0 :: grid') (-1)
                  = Return (nth (length (t0 :: grid') - 1) (t0 :: grid') t0))
    by now apply getitem_last.
  rewrite (init_eq model protocol tmax nsteps (t0 :: grid') t0 _
             Hpools Hgrid eq_refl Hlast) in Hinit.
  destruct (solve_ivp _ _ _ _) as [r | e]; [| discriminate].
  exists r. injection Hinit as <-. repeat split; assumption.
Qed.

End DriverFacts.

(** ** The evaluation grid *)

Lemma length_replace_nth {A} (l : list A) (k : nat) (v : A) :
  length (replace_nth l k v) = length l.
Proof.
  revert k. induction l as [| x l IH]; intros [| k]; cbn; auto.
Qed.

Lemma nth_replace_nth_eq {A} (l : list A) (k : nat) (v d : A) :
  (k < length l)%nat -> nth k (replace_nth l k v) d = v.
Proof.
  revert k. induction l as [| x l IH]; intros [| k] Hk; cbn in *;
    try lia; auto with arith.
Qed.

Lemma nth_replace_nth_neq {A} (l : list A) (k j : nat) (v d : A) :
  j <> k -> nth j (replace_nth l k v) d = nth j l d.
Proof.
  revert k j. induction l as [| x l IH]; intros [| k] [| j] Hjk; cbn;
    try congruence; auto.
Qed.

Section Grid.

Context {F : Type} {N : Number F}.
Variables (start stop : F).

Lemma np_linspace_negative (num : Z) :
  num < 0 -> np_linspace start stop num = Raise ValueError.
Proof.
  intros Hnum. unfold np_linspace.
  destruct (Z.ltb_spec num 0); [reflexivity | lia].
Qed.

Lemma np_linspace_zero : np_linspace start stop 0 = Return [].
Proof. reflexivity. Qed.

Lemma np_linspace_one :
  np_linspace start stop 1 = Return [(of_Z 0 * (stop - start) + start)%num].
Proof. reflexivity. Qed.

(** From two samples on: the samples, the last one replaced by [stop]. *)
Lemma np_linspace_eq (num : Z) :
  2 <= num ->
  np_linspace start stop num
  = Return (replace_nth (map (sample start stop num) (range 0 num))
              (Z.to_nat (num - 1)) stop).
Proof.
  intros Hnum. unfold np_linspace.
  destruct (Z.ltb_spec num 0); [lia |].
  destruct (Z.ltb_spec 0 (num - 1)); [| lia].
  destruct (Z.ltb_spec 1 num); [| lia].
  assert (Hsamples :
            map (fun v => (v + start)%num)
              (if eqb ((stop - start) / of_Z (num - 1))%num zero
               then map (fun v => (v * (stop - start))%num)
                      (map (fun v => (v / of_Z (num - 1))%num)
                         (map of_Z (range 0 num)))
               else map (fun v => (v * ((stop - start) / of_Z (num - 1)))%num)
                      (map of_Z (range 0 num)))
            = map (sample start stop num) (range 0 num)).
  { unfold sample.
    destruct (eqb ((stop - start) / of_Z (num - 1))%num zero);
      now rewrite !map_map. }
  cbv zeta. rewrite Hsamples.
  rewrite setitem_last.
  - do 2 f_equal. rewrite length_map, length_range. lia.
  - intros E. apply (f_equal (@length F)) in E.
    rewrite length_map, length_range in E. cbn [length] in E. lia.
Qed.

Lemma np_linspace_length (num : Z) :
  0 <= num ->
  exists grid,
    np_linspace start stop num = Return grid /\
    Z.of_nat (length grid) = num.
Proof.
  intros Hnum.
  destruct (Z.eq_dec num 0) as [-> | H0]; [now exists [] |].
  destruct (Z.eq_dec num 1) as [-> | H1]; [now eexists |].
  eexists. split; [apply np_linspace_eq; lia |].
  rewrite length_replace_nth, length_map, length_range. lia.
Qed.

(** From two samples on the grid is not empty and ends at [stop], whatever
    the arithmetic. *)
Lemma np_linspace_ends (num : Z) :
  2 <= num ->
  exists grid t_first,
    np_linspace start stop num = Return grid /\
    Z.of_nat (length grid) = num /\
    getitem grid 0 = Return t_first /\
    getitem grid (-1) = Return stop.
Proof.
  intros Hnum.
  destruct (np_linspace_length num) as (grid & Hgrid & Hlen); [lia |].
  destruct grid as [| t0 grid']; [cbn in Hlen; lia |].
  exists (t0 :: grid'), t0.
  split; [assumption |]. split; [assumption |]. split; [reflexivity |].
  rewrite (getitem_last _ t0) by discriminate. f_equal.
  rewrite np_linspace_eq in Hgrid by assumption.
  injection Hgrid as Hgrid. rewrite <- Hgrid.
  rewrite length_replace_nth, length_map, length_range.
  replace (Z.to_nat (num - 0) - 1)%nat with (Z.to_nat (num - 1)) by lia.
  apply nth_replace_nth_eq. rewrite length_map, length_range. lia.
Qed.

End Grid.

(** ** The reference integrator

    It reports at the requested times when it succeeds. *)

Lemma euler_walk_finished {F : Type} {N : Number F} (f : rhs_function F)
  (todo : list F) :
  forall budget t y ys,
    euler_walk f budget t y todo = Return (ys, true) ->
    length ys = length todo.
Proof.
  induction todo as [| t' todo IH]; intros budget t y ys Hwalk; cbn in Hwalk.
  - inversion Hwalk. reflexivity.
  - destruct budget as [| budget]; [discriminate |].
    destruct (f t y) as [k | e]; [| discriminate]. cbn [bind] in Hwalk.
    destruct (euler_walk f budget t' _ todo) as [[ys' fin] | e] eqn:Hrest;
      [| discriminate].
    cbn [bind] in Hwalk. inversion Hwalk; subst.
    cbn [length]. f_equal. eapply IH. eassumption.
Qed.

Lemma euler_ivp_reports {F : Type} {N : Number F} (max_steps : nat) :
  reports_requested_times (euler_ivp (F := F) max_steps).
Proof.
  intros f t_span y0 t_eval r Hrun Hsuccess. unfold euler_ivp in Hrun.
  destruct t_eval as [| t0 todo]; cbv beta iota in Hrun.
  - inversion Hrun. reflexivity.
  - destruct (euler_walk f max_steps t0 y0 todo) as [[ys fin] | e] eqn:Hwalk;
      [| discriminate].
    cbn [bind] in Hrun. inversion Hrun; subst r. cbn in Hsuccess. subst fin.
    apply euler_walk_finished in Hwalk.
    cbn [OdeResult.t length]. rewrite Hwalk.
    apply (firstn_all (t0 :: todo)).
Qed.

Section GridReals.

Local Open Scope R_scope.

Variables (tmax : R) (nsteps : Z).
Hypothesis Hsteps : (2 <= nsteps)%Z.

Let spacing : R := tmax / IZR (nsteps - 1).

(** The grid of the constructor, as the array library builds it. *)
Definition linear_grid : list R :=
  replace_nth
    (map (fun i => IZR i * ((tmax - 0) / IZR (nsteps - 1)) + 0)
       (range 0 nsteps))
    (Z.to_nat (nsteps - 1)) tmax.

Lemma np_linspace_grid : np_linspace 0 tmax nsteps = Return linear_grid.
Proof.
  rewrite (np_linspace_eq 0 tmax nsteps Hsteps). unfold linear_grid.
  do 2 f_equal. apply map_ext. intros i. unfold sample.
  change (@eqb R R_number) with
    (fun x y : R => if Req_dec_T x y then true else false).
  change (@zero R R_number) with 0.
  cbv beta. destruct (Req_dec_T _ 0) as [Hzero | _]; [| reflexivity].
  cbn [add sub mul div of_Z R_number] in *.
  assert (Hdiv : IZR (nsteps - 1) <> 0) by (apply not_0_IZR; lia).
  assert (Hspan : tmax - 0 = 0).
  { apply (Rmult_eq_reg_r (/ IZR (nsteps - 1)));
      [| now apply Rinv_neq_0_compat].
    rewrite Rmult_0_l. exact Hzero. }
  rewrite Hspan. unfold Rdiv. ring.
Qed.

Lemma length_linear_grid : Z.of_nat (length linear_grid) = nsteps.
Proof.
  unfold linear_grid.
  rewrite length_replace_nth, length_map, length_range. lia.
Qed.

Lemma nth_linear_grid (i : Z) :
  (0 <= i < nsteps)%Z ->
  nth (Z.to_nat i) linear_grid 0 = IZR i * spacing.
Proof.
  intros Hi. unfold linear_grid, spacing.
  assert (Hdiv : IZR (nsteps - 1) <> 0) by (apply not_0_IZR; lia).
  destruct (Z.eq_dec i (nsteps - 1)) as [-> | Hne].
  - rewrite nth_replace_nth_eq by (rewrite length_map, length_range; lia).
    now field.
  - rewrite nth_replace_nth_neq by lia.
    rewrite nth_indep with (d' := IZR 0 * ((tmax - 0) / IZR (nsteps - 1)) + 0)
      by (rewrite length_map, length_range; lia).
    rewrite (map_nth (fun i => IZR i * ((tmax - 0) / IZR (nsteps - 1)) + 0)).
    rewrite nth_range by lia.
    replace (0 + Z.of_nat (Z.to_nat i))%Z with i by lia.
    now field.
Qed.

Lemma getitem_linear_grid (i : Z) :
  (0 <= i < nsteps)%Z -> getitem linear_grid i = Return (IZR i * spacing).
Proof.
  intros Hi. rewrite (getitem_nth _ _ 0) by (rewrite length_linear_grid; lia).
  now rewrite nth_linear_grid.
Qed.

Lemma getitem_linear_grid_first : getitem linear_grid 0 = Return 0.
Proof. rewrite getitem_linear_grid by lia. f_equal. ring. Qed.

Lemma getitem_linear_grid_last : getitem linear_grid (-1) = Return tmax.
Proof.
  pose proof length_linear_grid as Hlen.
  rewrite (getitem_last _ 0).
  - replace (length linear_grid - 1)%nat with (Z.to_nat (nsteps - 1)) by lia.
    rewrite nth_linear_grid by lia. f_equal. unfold spacing.
    field. apply not_0_IZR. lia.
  - intros E. rewrite E in Hlen. cbn in Hlen. lia.
Qed.

Lemma linear_grid_two : nsteps = 2%Z -> linear_grid = [0; tmax].
Proof.
  intros E. unfold linear_grid. rewrite E.
  change (Z.to_nat (2 - 1)) with 1%nat.
  change (range 0 2) with [0%Z; 1%Z].
  change (2 - 1)%Z with 1%Z.
  cbn [map replace_nth]. f_equal. field.
Qed.

Lemma linear_grid_increasing (i j : Z) :
  0 < tmax -> (0 <= i < j)%Z -> (j < nsteps)%Z ->
  IZR i * spacing < IZR j * spacing.
Proof.
  intros Htmax Hij Hj.
  assert (0 < IZR (nsteps - 1)) by (apply IZR_lt; lia).
  assert (0 < spacing) by (unfold spacing; now apply Rdiv_lt_0_compat).
  apply Rmult_lt_compat_r; [assumption |]. apply IZR_lt. lia.
Qed.

End GridReals.




(** ** Failures *)

(** C3, as the code has it.  The constructor validates none of its
    parameters and raises no [ConfigurationError] of its own.  Before the
    integrator is called only the array library can raise: [ValueError] for a
    negative [nsteps] or a negative number of pools, [IndexError] for
    [nsteps = 0].  In every other case, whatever [Vc], [Qps], [Vps] and
    [tmax] are, the integrator is called on the grid, and what it returns or
    raises is what the constructor returns or raises. *)
Theorem constructor_validates_nothing {F : Type} {N : Number F}
  (solve_ivp : integrator F) (model : Model F) (protocol : Protocol F)
  (tmax : F) (nsteps : Z) :
  (nsteps < 0 ->
   __init__ solve_ivp model protocol tmax nsteps = Raise ValueError) /\
  (0 <= nsteps -> pools model protocol < 0 ->
   __init__ solve_ivp model protocol tmax nsteps = Raise ValueError) /\
  (nsteps = 0 -> 0 <= pools model protocol ->
   __init__ solve_ivp model protocol tmax nsteps = Raise IndexError) /\
  (1 <= nsteps -> 0 <= pools model protocol ->
   exists grid t_first t_last,
     np_linspace zero tmax nsteps = Return grid /\
     getitem grid 0 = Return t_first /\
     getitem grid (-1) = Return t_last /\
     __init__ solve_ivp model protocol tmax nsteps
     = match solve_ivp (step_function model protocol) (t_first, t_last)
               (repeat zero (Z.to_nat (pools model protocol))) grid with
       | Return r => Return (solved model protocol grid r)
       | Raise e => Raise e
       end).
Proof.
  split; [| split; [| split]].
  - intros Hneg. unfold __init__.
    now rewrite np_linspace_negative.
  - intros Hsteps Hpools. unfold __init__.
    destruct (np_linspace_length zero tmax nsteps Hsteps) as (grid & -> & _).
    cbn [bind]. now rewrite solver_negative_size.
  - intros -> Hpools. unfold __init__.
    rewrite np_linspace_zero. cbn [bind].
    pose proof (solver_empty_grid solve_ivp
                  {| model := model; protocol := protocol; t_eval := [];
                     y0 := None; sol := None |} Hpools eq_refl) as Hraise.
    destruct (solver _ _) as [self' [r | e]]; cbn in Hraise; congruence.
  - intros Hsteps Hpools.
    destruct (np_linspace_length zero tmax nsteps) as (grid & Hgrid & Hlen);
      [lia |].
    destruct grid as [| t0 grid']; [cbn in Hlen; lia |].
    exists (t0 :: grid'), t0, (nth (length (t0 :: grid') - 1) (t0 :: grid') t0).
    assert (Hlast : getitem (t0 :: grid') (-1)
                    = Return (nth (length (t0 :: grid') - 1) (t0 :: grid') t0))
      by now apply getitem_last.
    repeat split; try assumption.
    now apply init_eq.
Qed.

(** With a central volume of zero the constructor runs the integrator over
    the whole grid: the quotient [0/0] enters the state at the first step. *)
Lemma constructor_validates_nothing_witness :
  exists grid r,
    np_linspace zero 1%float 3 = Return grid /\
    __init__ (euler_ivp 10) zero_volume (constant_dose false 1%float) 1%float 3
    = Return (solved zero_volume (constant_dose false 1%float) grid r).
Proof.
  destruct (constructor_validates_nothing (euler_ivp 10) zero_volume
              (constant_dose false 1%float) 1%float 3)
    as (_ & _ & _ & Hreach).
  destruct Hreach as (grid & t_first & t_last & Hgrid & Hfirst & Hlast & Hinit);
    [lia | cbn; lia |].
  exists grid. rewrite Hinit.
  vm_compute in Hgrid. injection Hgrid as <-.
  vm_compute in Hfirst. injection Hfirst as <-.
  vm_compute in Hlast. injection Hlast as <-.
  eexists. vm_compute. split; reflexivity.
Defined.

(** C3, as the claim has it, fails: [Vc = 0] raises no
    [ConfigurationError]; the object is built and the integrator has
    evaluated the right-hand side at both steps. *)
Lemma zero_volume_is_integrated :
  __init__ (euler_ivp 10) zero_volume (constant_dose false 1%float) 1%float 3
  <> Raise ConfigurationError /\
  exists self r,
    __init__ (euler_ivp 10) zero_volume (constant_dose false 1%float) 1%float 3
    = Return self /\
    sol self = Some (SolResult r) /\
    OdeResult.nfev r = 2 /\
    OdeResult.t r = [0%float; 0.5%float; 1%float] /\
    OdeResult.y r = [[0%float; nan; nan]; [0%float; nan; nan]].
Proof.
  split.
  - vm_compute. discriminate.
  - do 2 eexists. split; [vm_compute; reflexivity |].
    repeat split.
Qed.

(** C4, as the code has it.  [solver] raises no [IntegrationFailure] of its
    own.  Once the zero state is built and the grid has a first and a last
    point, the result object of the integrator, whatever its [success] flag
    and however short its trajectory, is stored in [sol] and returned; and
    the method raises exactly when the integrator does, with the same
    exception. *)
Theorem solver_returns_integrator_result {F : Type} {N : Number F}
  (solve_ivp : integrator F) (self : Solution F) (t_first t_last : F) :
  0 <= pools (model self) (protocol self) ->
  getitem (t_eval self) 0 = Return t_first ->
  getitem (t_eval self) (-1) = Return t_last ->
  let zeros := repeat zero (Z.to_nat (pools (model self) (protocol self))) in
  let outcome := solve_ivp (step_function (model self) (protocol self))
                   (t_first, t_last) zeros (t_eval self) in
  (forall r, outcome = Return r ->
     solver solve_ivp self
     = (set_sol (set_y0 self zeros) (SolResult r), Return r)) /\
  (forall e, outcome = Raise e ->
     solver solve_ivp self
     = (set_sol (set_y0 self zeros) (SolArray zeros), Raise e)) /\
  (outcome <> Raise IntegrationFailure ->
   snd (solver solve_ivp self) <> Raise IntegrationFailure).
Proof.
  intros Hpools Hfirst Hlast zeros outcome.
  pose proof (solver_eq solve_ivp self t_first t_last Hpools Hfirst Hlast)
    as Hsolver.
  cbv zeta in Hsolver. fold zeros in Hsolver. fold outcome in Hsolver.
  rewrite Hsolver.
  repeat split.
  - now intros r ->.
  - now intros e ->.
  - destruct outcome as [r | e]; cbn; congruence.
Qed.

(** A budget of two steps on a grid of five points: the integrator gives up
    after three points, and that result is what [solver] returns. *)
Lemma solver_returns_integrator_result_witness :
  let self := unsolved (two_compartments 1%float) (constant_dose false 1%float)
                [0%float; 0.25%float; 0.5%float; 0.75%float; 1%float] in
  let r := {| OdeResult.t := [0%float; 0.25%float; 0.5%float];
              OdeResult.y := [[0%float; 0.25%float; 0.375%float];
                              [0%float; 0%float; 0.0625%float]];
              OdeResult.nfev := 2;
              OdeResult.status := -1;
              OdeResult.success := false |} in
  solver (euler_ivp 2) self
  = (set_sol (set_y0 self [0%float; 0%float]) (SolResult r), Return r).
Proof.
  intros self r.
  destruct (solver_returns_integrator_result (euler_ivp 2) self
              0%float 1%float) as (Hreturned & _);
    [cbn; lia | reflexivity | reflexivity |].
  apply (Hreturned r). vm_compute. reflexivity.
Defined.

(** C4, as the claim has it, fails: the integrator did not get through the
    grid, and the constructor gives an object holding the shortened
    trajectory instead of raising [IntegrationFailure]. *)
Lemma failed_integration_is_returned :
  __init__ (euler_ivp 2) (two_compartments 1%float)
    (constant_dose false 1%float) 1%float 5
  <> Raise IntegrationFailure /\
  exists self r,
    __init__ (euler_ivp 2) (two_compartments 1%float)
      (constant_dose false 1%float) 1%float 5 = Return self /\
    t_eval self = [0%float; 0.25%float; 0.5%float; 0.75%float; 1%float] /\
    sol self = Some (SolResult r) /\
    OdeResult.success r = false /\
    OdeResult.status r = -1 /\
    OdeResult.t r = [0%float; 0.25%float; 0.5%float].
Proof.
  split.
  - vm_compute. discriminate.
  - do 2 eexists. split; [vm_compute; reflexivity |].
    repeat split.
Qed.

(** ** Solving again *)

Section Again.

Context {F : Type} {N : Number F}.
Variable solve_ivp : integrator F.

(** [solver] reads the model, the protocol and the grid, and neither [y0]
    nor [sol]: two objects that agree on the former solve alike. *)
Lemma solver_depends_on (self other : Solution F) :
  model other = model self ->
  protocol other = protocol self ->
  t_eval other = t_eval self ->
  snd (solver solve_ivp other) = snd (solver solve_ivp self).
Proof.
  intros Hm Hp Hgrid.
  destruct (Z.ltb_spec (pools (model self) (protocol self)) 0)
    as [Hneg | Hpools].
  { rewrite (solver_negative_size solve_ivp self Hneg).
    rewrite <- Hm, <- Hp in Hneg.
    now rewrite (solver_negative_size solve_ivp other Hneg). }
  destruct (t_eval self) as [| t0 grid] eqn:Hself.
  { rewrite (solver_empty_grid solve_ivp self Hpools Hself).
    rewrite <- Hm, <- Hp in Hpools.
    now rewrite (solver_empty_grid solve_ivp other Hpools Hgrid). }
  assert (Hfirst : getitem (t_eval self) 0 = Return t0) by now rewrite Hself.
  assert (Hlast : getitem (t_eval self) (-1)
                  = Return (nth (length (t_eval self) - 1) (t_eval self) t0))
    by (apply getitem_last; congruence).
  rewrite (solver_eq solve_ivp self t0 _ Hpools Hfirst Hlast).
  rewrite <- Hself in Hgrid. clear Hself.
  assert (Hpools' : 0 <= pools (model other) (protocol other)) by congruence.
  assert (Hfirst' : getitem (t_eval other) 0 = Return t0) by congruence.
  assert (Hlast' : getitem (t_eval other) (-1)
                   = Return (nth (length (t_eval self) - 1) (t_eval self) t0))
    by congruence.
  rewrite (solver_eq solve_ivp other t0 _ Hpools' Hfirst' Hlast').
  rewrite Hgrid, Hm, Hp.
  now destruct (solve_ivp _ _ _ _).
Qed.

(** On the object the constructor gave, [solver] gives the stored result
    again and leaves the object as it is. *)
Lemma solver_again (m : Model F) (p : Protocol F) (tmax : F) (nsteps : Z)
  (self : Solution F) :
  __init__ solve_ivp m p tmax nsteps = Return self ->
  exists r,
    sol self = Some (SolResult r) /\
    solver solve_ivp self = (self, Return r).
Proof.
  intros Hinit.
  destruct (init_inv solve_ivp m p tmax nsteps self Hinit)
    as (grid & t_first & t_last & r & Hpools & _ & Hfirst & Hlast & Hrun & ->).
  exists r. split; [reflexivity |].
  rewrite (solver_eq solve_ivp (solved m p grid r) t_first t_last)
    by assumption.
  cbn -[getitem]. now rewrite Hrun.
Qed.

(** The plotting entry point, after its call of [solver]. *)
Lemma generate_plot_eq (separate : bool) (self self' : Solution F)
  (r : OdeResult.type F) :
  solver solve_ivp self = (self', Return r) ->
  exists out,
    generate_plot solve_ivp separate self = (self', out) /\
    forall lines, out = Return lines ->
      Forall (fun l => xdata l = OdeResult.t r) lines.
Proof.
  intros Hsolver. unfold generate_plot, mbind at 1. rewrite Hsolver.
  unfold mbind, attr, eval.
  destruct (getitem (OdeResult.y r) 0) as [row | e].
  - eexists. split; [reflexivity |].
    intros lines Hlines.
    revert Hlines. apply for_each_invariant.
    + intros acc i acc' Hacc Hstep.
      destruct (getitem (OdeResult.y r) (i + 1)); [| discriminate].
      cbn [bind] in Hstep. injection Hstep as <-.
      apply Forall_app. split; [assumption |]. now constructor.
    + now constructor.
  - eexists. split; [reflexivity |]. discriminate.
Qed.

End Again.

(** C10.  Solving is repeatable.  When the constructor has given an object,
    its [sol] holds the integrator's result [r]; calling [solver] on the
    object again, as the plotting entry point does, gives [r] again and
    leaves the object unchanged; every curve the plotting entry point draws
    is drawn against the times of [r]; and any object with the same model,
    protocol and grid solves to [r].  (The integrator and the dose function
    are functions of their arguments.) *)
Theorem solving_is_repeatable {F : Type} {N : Number F}
  (solve_ivp : integrator F) (m : Model F) (p : Protocol F) (tmax : F)
  (nsteps : Z) (self : Solution F) :
  __init__ solve_ivp m p tmax nsteps = Return self ->
  exists r,
    sol self = Some (SolResult r) /\
    solver solve_ivp self = (self, Return r) /\
    (forall separate, exists out,
       generate_plot solve_ivp separate self = (self, out) /\
       forall lines, out = Return lines ->
         Forall (fun l => xdata l = OdeResult.t r) lines) /\
    (forall other,
       model other = model self ->
       protocol other = protocol self ->
       t_eval other = t_eval self ->
       snd (solver solve_ivp other) = Return r) /\
    (forall self',
       __init__ solve_ivp m p tmax nsteps = Return self' ->
       sol self' = Some (SolResult r)).
Proof.
  intros Hinit.
  destruct (solver_again solve_ivp m p tmax nsteps self Hinit)
    as (r & Hsol & Hsolver).
  exists r. split; [assumption |]. split; [assumption |]. split; [| split].
  - intros separate. now apply generate_plot_eq.
  - intros other Hm Hp Hgrid.
    rewrite (solver_depends_on solve_ivp self other Hm Hp Hgrid).
    now rewrite Hsolver.
  - intros self' Hinit'. congruence.
Qed.

Lemma solving_is_repeatable_witness :
  exists self r,
    __init__ (euler_ivp 1000) (two_compartments 1%float)
      (constant_dose false 1%float) 1%float 3 = Return self /\
    sol self = Some (SolResult r) /\
    solver (euler_ivp 1000) self = (self, Return r).
Proof.
  eexists.
  assert (Hinit : __init__ (euler_ivp 1000) (two_compartments 1%float)
                    (constant_dose false 1%float) 1%float 3 = Return _)
    by (vm_compute; reflexivity).
  destruct (solving_is_repeatable _ _ _ _ _ _ Hinit)
    as (r & Hsol & Hsolver & _).
  exists r. repeat split; assumption.
Defined.

(** * Further properties *)

(** ** Indexing out of range *)

Lemma getitem_raise {A} (l : list A) (i : Z) :
  Z.of_nat (length l) <= i -> getitem l i = Raise IndexError.
Proof.
  intros Hi. unfold getitem.
  destruct (Z.ltb_spec i 0); [lia |].
  destruct (Z.ltb_spec i 0); [lia |].
  destruct (Z.leb_spec (Z.of_nat (length l)) i); [| lia].
  reflexivity.
Qed.

Lemma getitem_cases {A} (l : list A) (i : Z) :
  (exists x, getitem l i = Return x) \/ getitem l i = Raise IndexError.
Proof.
  unfold getitem. destruct (_ || _); [now right |].
  destruct (nth_error l _); [left; eauto | now right].
Qed.

Lemma getitem_cons_succ {A} (x : A) (l : list A) (i : Z) :
  0 <= i -> getitem (x :: l) (i + 1) = getitem l i.
Proof.
  intros Hi.
  destruct (Z.lt_ge_cases i (Z.of_nat (length l))) as [Hlt | Hge].
  - destruct l as [| d l']; [cbn in Hlt; lia |].
    rewrite (getitem_nth (x :: d :: l') (i + 1) d) by (cbn [length] in *; lia).
    rewrite (getitem_nth (d :: l') i d) by lia.
    replace (Z.to_nat (i + 1)) with (S (Z.to_nat i)) by lia. reflexivity.
  - rewrite !getitem_raise; cbn [length]; try lia. reflexivity.
Qed.

Lemma setitem_raise {A} (l : list A) (i : Z) (v : A) :
  Z.of_nat (length l) <= i -> setitem l i v = Raise IndexError.
Proof.
  intros Hi. unfold setitem.
  destruct (Z.ltb_spec i 0); [lia |].
  destruct (Z.ltb_spec i 0); [lia |].
  destruct (Z.leb_spec (Z.of_nat (length l)) i); [| lia].
  reflexivity.
Qed.

Lemma setitem_cons_succ {A} (x : A) (l : list A) (i : Z) (v : A) :
  0 <= i ->
  setitem (x :: l) (i + 1) v = (l' <- setitem l i v ;; Return (x :: l')).
Proof.
  intros Hi.
  destruct (Z.lt_ge_cases i (Z.of_nat (length l))) as [Hlt | Hge].
  - rewrite !setitem_replace by (cbn [length]; lia).
    replace (Z.to_nat (i + 1)) with (S (Z.to_nat i)) by lia. reflexivity.
  - rewrite !setitem_raise; cbn [length]; try lia. reflexivity.
Qed.

(** A loop raises as soon as one of its steps does. *)
Lemma for_each_raises {A S} (body : S -> A -> result S) (e : exception)
  (xs : list A) (bad : A) :
  In bad xs ->
  (forall acc, body acc bad = Raise e) ->
  (forall acc x, In x xs ->
     (exists acc', body acc x = Return acc') \/ body acc x = Raise e) ->
  forall acc, for_each xs body acc = Raise e.
Proof.
  induction xs as [| x xs IH]; intros Hin Hbad Hbody acc; [contradiction |].
  cbn [for_each].
  destruct Hin as [-> | Hin].
  - now rewrite Hbad.
  - destruct (Hbody acc x (or_introl eq_refl)) as [(acc' & ->) | ->];
      [| reflexivity].
    cbn [bind]. apply IH; try assumption.
    intros acc0 x0 Hx0. apply Hbody. now right.
Qed.

(** Two loops whose steps correspond give corresponding results. *)
Lemma for_each_map {A S T} (f : S -> T) (body : S -> A -> result S)
  (body' : T -> A -> result T) (xs : list A) :
  (forall acc x, In x xs ->
     body' (f acc) x = (acc' <- body acc x ;; Return (f acc'))) ->
  forall acc,
    for_each xs body' (f acc)
    = (acc' <- for_each xs body acc ;; Return (f acc')).
Proof.
  induction xs as [| x xs IH]; intros Hstep acc; cbn [for_each];
    [reflexivity |].
  rewrite Hstep by now left.
  destruct (body acc x) as [acc1 | e]; cbn [bind]; [| reflexivity].
  apply IH. intros acc0 x0 Hx0. apply Hstep. now right.
Qed.

(** ** Index errors of the right-hand sides *)

Section Bounds.

Context {F : Type} {N : Number F}.
Variables (model : Model F) (protocol : Protocol F) (t : F) (y : list F).

Ltac step_cases :=
  repeat match goal with
    | |- context [bind (getitem ?l ?i) _] =>
        destruct (getitem_cases l i) as [(? & ->) | ->]; cbn [bind];
        [| now right]
    end.

Lemma rhs_intravenous_out_of_range :
  ~ indexable model y 0 ->
  rhs_intravenous model protocol t y = Raise IndexError.
Proof.
  intros Hbad. unfold rhs_intravenous.
  destruct (Z.lt_ge_cases 0 (Z.of_nat (length y))) as [Hy | Hy];
    [| now rewrite getitem_raise by lia].
  rewrite (getitem_nth y 0 zero) by lia. cbn [bind].
  assert (Hlast : 2 <= size model /\
                  (Z.of_nat (length (Qps model)) <= size model - 2 \/
                   Z.of_nat (length (Vps model)) <= size model - 2 \/
                   Z.of_nat (length y) <= size model - 1)).
  { unfold indexable in Hbad. lia. }
  destruct Hlast as (Hsize & Hshort).
  rewrite (for_each_raises _ IndexError _ (size model - 1)).
  - reflexivity.
  - apply in_range. lia.
  - intros [dq fs].
    replace (size model - 1 - 1) with (size model - 2) by lia.
    destruct Hshort as [HQ | [HV | Hstate]].
    + now rewrite (getitem_raise (Qps model)) by lia.
    + destruct (getitem_cases (Qps model) (size model - 2))
        as [(? & ->) | ->]; cbn [bind]; [| reflexivity].
      now rewrite (getitem_raise (Vps model)) by lia.
    + destruct (getitem_cases (Qps model) (size model - 2))
        as [(? & ->) | ->]; cbn [bind]; [| reflexivity].
      destruct (getitem_cases (Vps model) (size model - 2))
        as [(? & ->) | ->]; cbn [bind]; [| reflexivity].
      now rewrite (getitem_raise y) by lia.
  - intros [dq fs] comp _. step_cases. left. eauto.
Qed.

Lemma rhs_subcutaneous_out_of_range :
  ~ indexable model y 1 ->
  rhs_subcutaneous model protocol t y = Raise IndexError.
Proof.
  intros Hbad. unfold rhs_subcutaneous.
  destruct (Z.lt_ge_cases 1 (Z.of_nat (length y))) as [Hy | Hy];
    [| now rewrite getitem_raise by lia].
  rewrite (getitem_nth y 1 zero) by lia. cbn [bind].
  rewrite (getitem_nth y 0 zero) by lia. cbn [bind].
  assert (Hlast : 2 <= size model /\
                  (Z.of_nat (length (Qps model)) <= size model - 2 \/
                   Z.of_nat (length (Vps model)) <= size model - 2 \/
                   Z.of_nat (length y) <= size model)).
  { unfold indexable in Hbad. lia. }
  destruct Hlast as (Hsize & Hshort).
  change (setitem [zero; zero] 0 ?v) with (Return [v; @zero F N]).
  cbn [bind].
  rewrite (for_each_raises _ IndexError _ (size model - 1)).
  - reflexivity.
  - apply in_range. lia.
  - intros [dq fs].
    replace (size model - 1 - 1) with (size model - 2) by lia.
    replace (size model - 1 + 1) with (size model) by lia.
    destruct Hshort as [HQ | [HV | Hstate]].
    + now rewrite (getitem_raise (Qps model)) by lia.
    + destruct (getitem_cases (Qps model) (size model - 2))
        as [(? & ->) | ->]; cbn [bind]; [| reflexivity].
      now rewrite (getitem_raise (Vps model)) by lia.
    + destruct (getitem_cases (Qps model) (size model - 2))
        as [(? & ->) | ->]; cbn [bind]; [| reflexivity].
      destruct (getitem_cases (Vps model) (size model - 2))
        as [(? & ->) | ->]; cbn [bind]; [| reflexivity].
      now rewrite (getitem_raise y) by lia.
  - intros [dq fs] comp _. step_cases. left. eauto.
Qed.

End Bounds.

(** X2.  Index errors of the intravenous right-hand side.  For volumes
    that are not zero (none of them [== 0]), the call returns exactly when
    every index it reads exists: [Qps] and [Vps] have at least [size - 1]
    entries and the state has at least one entry and at least [size] of
    them.  It then returns [max(1, size)] entries, however long the state
    is.  In every other case it raises [IndexError]. *)
Theorem rhs_intravenous_index_error {F : Type} {N : Number F}
  (model : Model F) (protocol : Protocol F) (t : F) (y : list F) :
  eqb (Vc model) zero = false ->
  Forall (fun v => eqb v zero = false) (Vps model) ->
  let fits :=
    size model - 1 <= Z.of_nat (length (Qps model)) /\
    size model - 1 <= Z.of_nat (length (Vps model)) /\
    1 <= Z.of_nat (length y) /\
    size model <= Z.of_nat (length y) in
  (fits ->
   exists dq_dt,
     rhs_intravenous model protocol t y = Return dq_dt /\
     Z.of_nat (length dq_dt) = Z.max 1 (size model)) /\
  (~ fits -> rhs_intravenous model protocol t y = Raise IndexError).
Proof.
  intros _ _ fits. split.
  - intros (HQ & HV & Hy1 & Hy).
    eexists. split; [apply rhs_intravenous_eq; unfold indexable; lia |].
    cbn [length]. rewrite length_fluxes. lia.
  - intros Hbad. apply rhs_intravenous_out_of_range.
    unfold indexable. intros H. apply Hbad. unfold fits. lia.
Qed.

(** Two compartments in binary64: a state that is longer than needed, and
    one that is too short. *)
Lemma rhs_intravenous_index_error_witness :
  (exists dq_dt,
     rhs_intravenous (two_compartments 1%float) (constant_dose false 1%float)
       0%float [0.5%float; 0.25%float; 7%float] = Return dq_dt /\
     Z.of_nat (length dq_dt) = 2) /\
  rhs_intravenous (two_compartments 1%float) (constant_dose false 1%float)
    0%float [0.5%float] = Raise IndexError.
Proof.
  assert (HVc : eqb (Vc (two_compartments 1%float)) zero = false)
    by reflexivity.
  assert (HV : Forall (fun v => eqb v zero = false)
                 (Vps (two_compartments 1%float)))
    by (repeat constructor).
  split.
  - apply (rhs_intravenous_index_error (two_compartments 1%float)
             (constant_dose false 1%float) 0%float
             [0.5%float; 0.25%float; 7%float] HVc HV).
    cbn. lia.
  - apply (rhs_intravenous_index_error (two_compartments 1%float)
             (constant_dose false 1%float) 0%float [0.5%float] HVc HV).
    cbn. lia.
Defined.

(** X3.  Index errors of the subcutaneous right-hand side.  For volumes
    that are not zero (none of them [== 0]), the call returns exactly when
    [Qps] and [Vps] have at least [size - 1] entries and the state has at
    least two entries and at least [size + 1] of them.  It then returns
    [max(1, size) + 1] entries.  In every other case it raises
    [IndexError]. *)
Theorem rhs_subcutaneous_index_error {F : Type} {N : Number F}
  (model : Model F) (protocol : Protocol F) (t : F) (y : list F) :
  eqb (Vc model) zero = false ->
  Forall (fun v => eqb v zero = false) (Vps model) ->
  let fits :=
    size model - 1 <= Z.of_nat (length (Qps model)) /\
    size model - 1 <= Z.of_nat (length (Vps model)) /\
    2 <= Z.of_nat (length y) /\
    size model + 1 <= Z.of_nat (length y) in
  (fits ->
   exists dq_dt,
     rhs_subcutaneous model protocol t y = Return dq_dt /\
     Z.of_nat (length dq_dt) = Z.max 1 (size model) + 1) /\
  (~ fits -> rhs_subcutaneous model protocol t y = Raise IndexError).
Proof.
  intros _ _ fits. split.
  - intros (HQ & HV & Hy1 & Hy).
    eexists. split; [apply rhs_subcutaneous_eq; unfold indexable; lia |].
    cbn [length]. rewrite length_fluxes. lia.
  - intros Hbad. apply rhs_subcutaneous_out_of_range.
    unfold indexable. intros H. apply Hbad. unfold fits. lia.
Qed.

(** Two compartments in binary64: a state with the depot, and one without
    it. *)
Lemma rhs_subcutaneous_index_error_witness :
  (exists dq_dt,
     rhs_subcutaneous (two_compartments 1%float) (constant_dose true 1%float)
       0%float [1%float; 0.5%float; 0.25%float] = Return dq_dt /\
     Z.of_nat (length dq_dt) = 3) /\
  rhs_subcutaneous (two_compartments 1%float) (constant_dose true 1%float)
    0%float [0.5%float; 0.25%float] = Raise IndexError.
Proof.
  assert (HVc : eqb (Vc (two_compartments 1%float)) zero = false)
    by reflexivity.
  assert (HV : Forall (fun v => eqb v zero = false)
                 (Vps (two_compartments 1%float)))
    by (repeat constructor).
  split.
  - apply (rhs_subcutaneous_index_error (two_compartments 1%float)
             (constant_dose true 1%float) 0%float
             [1%float; 0.5%float; 0.25%float] HVc HV).
    cbn. lia.
  - apply (rhs_subcutaneous_index_error (two_compartments 1%float)
             (constant_dose true 1%float) 0%float
             [0.5%float; 0.25%float] HVc HV).
    cbn. lia.
Defined.

(** X4.  The subcutaneous right-hand side is the intravenous one, fed by
    the depot.  On a state [depot :: y] it gives the depot's derivative
    [dose(t) - k_a*depot] followed by what the intravenous right-hand side
    gives on [y] when its dose rate is [k_a*depot], and it raises when that
    one raises; on the empty state it raises [IndexError]. *)
Theorem rhs_subcutaneous_is_fed_intravenous {F : Type} {N : Number F}
  (model : Model F) (protocol : Protocol F) (t : F) :
  rhs_subcutaneous model protocol t [] = Raise IndexError /\
  forall depot y,
    rhs_subcutaneous model protocol t (depot :: y)
    = (dq_dt <- rhs_intravenous model (fed_by_depot protocol depot) t y ;;
       Return ((dose_time_function protocol t - k_a protocol * depot)%num
               :: dq_dt)).
Proof.
  split; [reflexivity |].
  intros depot y. unfold rhs_subcutaneous, rhs_intravenous.
  assert (Hcentral : getitem (depot :: y) 1 = getitem y 0)
    by (apply (getitem_cons_succ depot y 0); lia).
  rewrite Hcentral.
  destruct (getitem y 0) as [s | e]; cbn [bind]; [| reflexivity].
  change (getitem (depot :: y) 0) with (Return depot). cbn [bind].
  change (setitem [zero; zero] 0 ?v) with (Return [v; @zero F N]).
  cbn [bind].
  match goal with
  | |- _ = bind (bind (for_each _ ?body _) _) _ =>
      rewrite (for_each_map
                 (fun '(dq, fs) =>
                    ((dose_time_function protocol t
                      - k_a protocol * depot)%num :: dq, fs))
                 body _ (range 1 (size model))) with (acc := ([zero], zero))
  end.
  - destruct (for_each _ _ _) as [[dq fs] | e]; cbn [bind]; [| reflexivity].
    apply (setitem_cons_succ _ dq 0). lia.
  - intros [dq fs] comp Hcomp. apply in_range in Hcomp.
    rewrite (getitem_cons_succ depot y comp) by lia.
    destruct (getitem (Qps model) (comp - 1)); cbn [bind]; [| reflexivity].
    destruct (getitem (Vps model) (comp - 1)); cbn [bind]; [| reflexivity].
    destruct (getitem y comp); cbn [bind]; reflexivity.
Qed.

(** ** Signs *)

Section Signs.

Local Open Scope R_scope.

Variables (model : Model R) (y : list R) (c : Z).
Hypothesis HVc : 0 < Vc model.
Hypothesis HQ : Forall (Rle 0) (Qps model).
Hypothesis HV : Forall (Rlt 0) (Vps model).
Hypothesis Hy : Forall (Rle 0) y.

Lemma nth_nonneg (l : list R) (i : nat) : Forall (Rle 0) l -> 0 <= nth i l 0.
Proof.
  intros Hl. destruct (Nat.lt_ge_cases i (length l)) as [Hi | Hi].
  - now apply Forall_nth.
  - rewrite nth_overflow by assumption. lra.
Qed.

Lemma py_sum_nonpos (l : list R) :
  Forall (fun x => x <= 0) l -> py_sum l <= 0.
Proof.
  induction 1 as [| x l Hx _ IH].
  - unfold py_sum. cbn. lra.
  - rewrite py_sum_cons. lra.
Qed.

(** No flux leaves an empty peripheral compartment. *)
Lemma flux_into_empty_peripheral (comp : Z) :
  nth (Z.to_nat (c + comp)) y 0 = 0 -> 0 <= flux model y c comp.
Proof.
  intros Hempty. unfold flux. cbn. rewrite Hempty.
  pose proof (nth_nonneg (Qps model) (Z.to_nat (comp - 1)) HQ) as HQi.
  pose proof (nth_nonneg y (Z.to_nat c) Hy) as Hc.
  assert (0 <= nth (Z.to_nat c) y 0 / Vc model)
    by (apply Rmult_le_pos; [assumption | left; now apply Rinv_0_lt_compat]).
  unfold Rdiv at 2. rewrite Rmult_0_l. nra.
Qed.

(** Nothing flows out of an empty central compartment. *)
Lemma flux_from_empty_central (comp : Z) :
  (1 <= comp)%Z ->
  (comp - 1 < Z.of_nat (length (Vps model)))%Z ->
  nth (Z.to_nat c) y 0 = 0 -> flux model y c comp <= 0.
Proof.
  intros Hcomp Hlen Hempty. unfold flux. cbn. rewrite Hempty.
  pose proof (nth_nonneg (Qps model) (Z.to_nat (comp - 1)) HQ) as HQi.
  pose proof (nth_nonneg y (Z.to_nat (c + comp)) Hy) as Hs.
  assert (HVi : 0 < nth (Z.to_nat (comp - 1)) (Vps model) 0)
    by (apply Forall_nth; [assumption | lia]).
  assert (0 <= nth (Z.to_nat (c + comp)) y 0
               / nth (Z.to_nat (comp - 1)) (Vps model) 0)
    by (apply Rmult_le_pos; [assumption | left; now apply Rinv_0_lt_compat]).
  unfold Rdiv at 1. rewrite Rmult_0_l. nra.
Qed.

Lemma fluxes_from_empty_central :
  (size model - 1 <= Z.of_nat (length (Vps model)))%Z ->
  nth (Z.to_nat c) y 0 = 0 ->
  py_sum (fluxes model y c) <= 0.
Proof.
  intros Hlen Hempty. apply py_sum_nonpos. unfold fluxes.
  apply Forall_forall. intros x Hx. apply in_map_iff in Hx.
  destruct Hx as (comp & <- & Hcomp). apply in_range in Hcomp.
  apply flux_from_empty_central; try assumption; lia.
Qed.

End Signs.

Section Positivity.

Local Open Scope R_scope.

(** X5.  Empty pools do not drain.  For a model with positive volumes and
    non-negative transfer rates, a non-negative absorption constant, a
    non-negative dose rate and a state without negative entries: wherever
    the state holds [0], the derivative is not negative.  So no pool is
    driven below zero, in either regimen. *)
Theorem empty_pools_do_not_drain (model : Model R) (protocol : Protocol R)
  (t : R) :
  Z.of_nat (length (Qps model)) = (size model - 1)%Z ->
  Z.of_nat (length (Vps model)) = (size model - 1)%Z ->
  0 < Vc model ->
  Forall (Rle 0) (Qps model) ->
  Forall (Rlt 0) (Vps model) ->
  0 <= k_a protocol ->
  0 <= dose_time_function protocol t ->
  (forall y,
     Z.of_nat (length y) = size model ->
     Forall (Rle 0) y ->
     exists dq_dt,
       rhs_intravenous model protocol t y = Return dq_dt /\
       forall i, (i < length y)%nat ->
         nth i y 0 = 0 -> 0 <= nth i dq_dt 0) /\
  (forall y,
     Z.of_nat (length y) = (size model + 1)%Z ->
     Forall (Rle 0) y ->
     exists dq_dt,
       rhs_subcutaneous model protocol t y = Return dq_dt /\
       forall i, (i < length y)%nat ->
         nth i y 0 = 0 -> 0 <= nth i dq_dt 0).
Proof.
  intros HlenQ HlenV HVc HQ HV Hka Hdose. split; intros y Hlen Hy.
  - eexists. split; [apply rhs_intravenous_R; unfold indexable; lia |].
    intros [| k] Hi Hempty; cbn [nth].
    + pose proof (fluxes_from_empty_central model y 0 HQ HV Hy) as Hsum.
      rewrite Hempty. unfold Rdiv. rewrite !Rmult_0_l.
      specialize (Hsum ltac:(lia) Hempty). lra.
    + pose proof (nth_fluxes model y 0 (Z.of_nat (S k))) as Hflux.
      replace (Z.to_nat (Z.of_nat (S k) - 1)) with k in Hflux by lia.
      change (@zero R R_number) with 0 in Hflux. rewrite Hflux by lia.
      apply flux_into_empty_peripheral; try assumption.
      now replace (Z.to_nat (0 + Z.of_nat (S k))) with (S k) by lia.
  - eexists. split; [apply rhs_subcutaneous_R; unfold indexable; lia |].
    pose proof (nth_nonneg y 0 Hy) as Hdepot.
    intros [| [| k]] Hi Hempty; cbn [nth].
    + rewrite Hempty. nra.
    + pose proof (fluxes_from_empty_central model y 1 HQ HV Hy) as Hsum.
      rewrite Hempty. unfold Rdiv. rewrite !Rmult_0_l.
      specialize (Hsum ltac:(lia) Hempty). nra.
    + pose proof (nth_fluxes model y 1 (Z.of_nat (S k))) as Hflux.
      replace (Z.to_nat (Z.of_nat (S k) - 1)) with k in Hflux by lia.
      change (@zero R R_number) with 0 in Hflux. rewrite Hflux by lia.
      apply flux_into_empty_peripheral; try assumption.
      now replace (Z.to_nat (1 + Z.of_nat (S k))) with (S (S k)) by lia.
Qed.

Lemma empty_pools_do_not_drain_witness :
  exists dq_dt,
    rhs_subcutaneous (two_compartments 1%R) (constant_dose true 1%R) 0%R
      [2%R; 0%R; 3%R] = Return dq_dt /\
    (0 <= nth 1 dq_dt 0)%R.
Proof.
  destruct (empty_pools_do_not_drain (two_compartments 1%R)
              (constant_dose true 1%R) 0%R) as (_ & Hsc);
    try reflexivity; try (cbn; lra);
    try (repeat constructor; cbn; lra).
  destruct (Hsc [2%R; 0%R; 3%R]) as (dq_dt & Hrun & Hsign);
    [reflexivity | repeat constructor; lra |].
  exists dq_dt. split; [assumption |].
  apply Hsign; [cbn; lia | reflexivity].
Defined.

End Positivity.

(** ** Equilibrium and linearity *)

Section Equilibrium.

Local Open Scope R_scope.

Variables (model : Model R).
Hypothesis HVc : Vc model <> 0.
Hypothesis HV : Forall (fun v => v <> 0) (Vps model).
Hypothesis HlenQ : Z.of_nat (length (Qps model)) = (size model - 1)%Z.
Hypothesis HlenV : Z.of_nat (length (Vps model)) = (size model - 1)%Z.

(** With the same concentration [conc] in the central compartment (at
    index [c]) and in every peripheral one, all fluxes vanish. *)
Lemma fluxes_at_equal_concentration (front : list R) (conc : R) :
  let y := front ++ conc * Vc model :: map (Rmult conc) (Vps model) in
  fluxes model y (Z.of_nat (length front))
  = repeat 0 (Z.to_nat (size model - 1)).
Proof.
  intros y. unfold fluxes. rewrite <- (length_range 1 (size model)).
  apply map_constant. intros comp Hcomp. apply in_range in Hcomp.
  unfold flux, y. cbn [zero of_Z R_number mul sub div].
  rewrite Nat2Z.id, nth_middle.
  rewrite app_nth2 by lia.
  replace (Z.to_nat (Z.of_nat (length front) + comp) - length front)%nat
    with (S (Z.to_nat (comp - 1))) by lia.
  cbn [nth].
  rewrite (nth_indep (map (Rmult conc) (Vps model)) 0 (conc * 0))
    by (rewrite length_map; lia).
  rewrite (map_nth (Rmult conc)).
  assert (nth (Z.to_nat (comp - 1)) (Vps model) 0 <> 0)
    by (apply Forall_nth; [assumption | lia]).
  now field.
Qed.

End Equilibrium.

(** X6.  Equal concentrations exchange nothing.  When the central and all
    peripheral compartments hold the same concentration [conc] (the mass
    [conc] times the volume), every peripheral derivative is [0] and the
    central one is [dose(t) - conc*CL], plus [k_a*depot] in the subcutaneous
    regimen. *)
Theorem equal_concentrations_exchange_nothing (model : Model R)
  (protocol : Protocol R) (t conc depot : R) :
  Vc model <> 0%R ->
  Forall (fun v => v <> 0%R) (Vps model) ->
  Z.of_nat (length (Qps model)) = size model - 1 ->
  Z.of_nat (length (Vps model)) = size model - 1 ->
  let pools := (conc * Vc model)%R :: map (Rmult conc) (Vps model) in
  rhs_intravenous model protocol t pools
  = Return ((dose_time_function protocol t - conc * CL model)%R
            :: repeat 0%R (Z.to_nat (size model - 1))) /\
  rhs_subcutaneous model protocol t (depot :: pools)
  = Return ((dose_time_function protocol t - k_a protocol * depot)%R
            :: (k_a protocol * depot - conc * CL model)%R
            :: repeat 0%R (Z.to_nat (size model - 1))).
Proof.
  intros HVc HV HlenQ HlenV pools. split.
  - rewrite rhs_intravenous_R
      by (unfold indexable, pools; cbn [length]; rewrite length_map; lia).
    pose proof (fluxes_at_equal_concentration model HVc HV HlenV [] conc)
      as Hfluxes.
    cbv zeta in Hfluxes. cbn [app length] in Hfluxes.
    change (Z.of_nat 0) with 0 in Hfluxes. fold pools in Hfluxes.
    rewrite Hfluxes, py_sum_zeros. unfold pools. cbn [nth].
    do 2 f_equal. now field.
  - rewrite rhs_subcutaneous_R
      by (unfold indexable, pools; cbn [length]; rewrite length_map; lia).
    pose proof (fluxes_at_equal_concentration model HVc HV HlenV [depot]
                  conc) as Hfluxes.
    cbv zeta in Hfluxes. cbn [app length] in Hfluxes.
    change (Z.of_nat 1) with 1 in Hfluxes. fold pools in Hfluxes.
    rewrite Hfluxes, py_sum_zeros. unfold pools. cbn [nth].
    do 3 f_equal. now field.
Qed.

Lemma equal_concentrations_exchange_nothing_witness :
  let model := two_compartments 1%R in
  let protocol := constant_dose true 1%R in
  let pools := (3 * Vc model)%R :: map (Rmult 3) (Vps model) in
  rhs_intravenous model protocol 0%R pools
  = Return ((dose_time_function protocol 0 - 3 * CL model)%R
            :: repeat 0%R (Z.to_nat (size model - 1))) /\
  rhs_subcutaneous model protocol 0%R (2%R :: pools)
  = Return ((dose_time_function protocol 0 - k_a protocol * 2)%R
            :: (k_a protocol * 2 - 3 * CL model)%R
            :: repeat 0%R (Z.to_nat (size model - 1))).
Proof.
  intros model protocol pools.
  assert (HVc : Vc model <> 0%R) by (cbn; lra).
  assert (HV : Forall (fun v => v <> 0%R) (Vps model))
    by (repeat constructor; cbn; lra).
  exact (equal_concentrations_exchange_nothing model protocol 0%R 3%R 2%R
           HVc HV eq_refl eq_refl).
Defined.

Section Superposition.

Local Open Scope R_scope.

Variables (a b : R).

Lemma length_lincomb (u v : list R) :
  length u = length v -> length (lincomb a b u v) = length u.
Proof.
  intros Hlen. unfold lincomb.
  rewrite length_map, length_combine. lia.
Qed.

Lemma nth_lincomb (u v : list R) (i : nat) :
  length u = length v ->
  nth i (lincomb a b u v) 0 = a * nth i u 0 + b * nth i v 0.
Proof.
  revert v i. induction u as [| x u IH]; intros [| z v] i Hlen;
    try discriminate.
  - destruct i; cbn; ring.
  - destruct i; cbn [lincomb combine map nth]; [reflexivity |].
    apply IH. now injection Hlen.
Qed.

Lemma lincomb_cons (x z : R) (u v : list R) :
  lincomb a b (x :: u) (z :: v) = (a * x + b * z) :: lincomb a b u v.
Proof. reflexivity. Qed.

Lemma lincomb_map {A} (f g : A -> R) (l : list A) :
  lincomb a b (map f l) (map g l) = map (fun x => a * f x + b * g x) l.
Proof.
  induction l as [| x l IH]; [reflexivity |].
  cbn [map]. now rewrite lincomb_cons, IH.
Qed.

Lemma py_sum_lincomb (u v : list R) :
  length u = length v ->
  py_sum (lincomb a b u v) = a * py_sum u + b * py_sum v.
Proof.
  revert v. induction u as [| x u IH]; intros [| z v] Hlen;
    try discriminate.
  - unfold py_sum. cbn. ring.
  - rewrite lincomb_cons, !py_sum_cons, IH by now injection Hlen.
    ring.
Qed.

Lemma flux_lincomb (model : Model R) (y1 y2 : list R) (c comp : Z) :
  length y1 = length y2 ->
  flux model (lincomb a b y1 y2) c comp
  = a * flux model y1 c comp + b * flux model y2 c comp.
Proof.
  intros Hlen. unfold flux. cbn [zero of_Z R_number mul sub div].
  rewrite !nth_lincomb by assumption. unfold Rdiv. ring.
Qed.

Lemma fluxes_lincomb (model : Model R) (y1 y2 : list R) (c : Z) :
  length y1 = length y2 ->
  fluxes model (lincomb a b y1 y2) c
  = lincomb a b (fluxes model y1 c) (fluxes model y2 c).
Proof.
  intros Hlen. unfold fluxes. rewrite lincomb_map. apply map_ext.
  intros comp. now apply flux_lincomb.
Qed.

End Superposition.

(** X7.  Linearity.  If the dose rate at [t] is [a*dose1(t) + b*dose2(t)]
    and the absorption constants agree, the derivative at the state
    [a*y1 + b*y2] is [a] times the derivative at [y1] under [dose1] plus [b]
    times the derivative at [y2] under [dose2], in both regimens: doubling
    dose and state doubles every derivative. *)
Theorem right_hand_sides_are_linear (model : Model R)
  (p p1 p2 : Protocol R) (t a b : R) :
  Z.of_nat (length (Qps model)) = size model - 1 ->
  Z.of_nat (length (Vps model)) = size model - 1 ->
  dose_time_function p t
  = (a * dose_time_function p1 t + b * dose_time_function p2 t)%R ->
  k_a p1 = k_a p -> k_a p2 = k_a p ->
  (forall y1 y2,
     Z.of_nat (length y1) = size model ->
     Z.of_nat (length y2) = size model ->
     exists d1 d2,
       rhs_intravenous model p1 t y1 = Return d1 /\
       rhs_intravenous model p2 t y2 = Return d2 /\
       rhs_intravenous model p t (lincomb a b y1 y2)
       = Return (lincomb a b d1 d2)) /\
  (forall y1 y2,
     Z.of_nat (length y1) = size model + 1 ->
     Z.of_nat (length y2) = size model + 1 ->
     exists d1 d2,
       rhs_subcutaneous model p1 t y1 = Return d1 /\
       rhs_subcutaneous model p2 t y2 = Return d2 /\
       rhs_subcutaneous model p t (lincomb a b y1 y2)
       = Return (lincomb a b d1 d2)).
Proof.
  intros HlenQ HlenV Hdose Hk1 Hk2. split; intros y1 y2 Hy1 Hy2.
  - assert (Hlen : length y1 = length y2) by lia.
    do 2 eexists.
    split; [apply rhs_intravenous_R; unfold indexable; lia |].
    split; [apply rhs_intravenous_R; unfold indexable; lia |].
    rewrite rhs_intravenous_R
      by (unfold indexable; rewrite length_lincomb by assumption; lia).
    rewrite lincomb_cons, fluxes_lincomb by assumption.
    do 2 f_equal.
    rewrite py_sum_lincomb, nth_lincomb, Hdose
      by (rewrite ?length_fluxes; trivial).
    unfold Rdiv. ring.
  - assert (Hlen : length y1 = length y2) by lia.
    do 2 eexists.
    split; [apply rhs_subcutaneous_R; unfold indexable; lia |].
    split; [apply rhs_subcutaneous_R; unfold indexable; lia |].
    rewrite rhs_subcutaneous_R
      by (unfold indexable; rewrite length_lincomb by assumption; lia).
    rewrite !lincomb_cons, fluxes_lincomb by assumption.
    rewrite py_sum_lincomb, !nth_lincomb, Hdose, Hk1, Hk2
      by (rewrite ?length_fluxes; trivial).
    f_equal. f_equal; [ring |]. f_equal.
    unfold Rdiv. ring.
Qed.

Lemma right_hand_sides_are_linear_witness :
  exists d1 d2,
    rhs_intravenous (two_compartments 1%R) (constant_dose false 1%R) 0%R
      [1%R; 2%R] = Return d1 /\
    rhs_intravenous (two_compartments 1%R) (constant_dose false 2%R) 0%R
      [3%R; 4%R] = Return d2 /\
    rhs_intravenous (two_compartments 1%R) (constant_dose false 5%R) 0%R
      (lincomb 1 2 [1%R; 2%R] [3%R; 4%R])
    = Return (lincomb 1 2 d1 d2).
Proof.
  destruct (right_hand_sides_are_linear (two_compartments 1%R)
              (constant_dose false 5%R) (constant_dose false 1%R)
              (constant_dose false 2%R) 0%R 1%R 2%R) as (Hiv & _);
    try reflexivity; [cbn; lra |].
  apply (Hiv [1%R; 2%R] [3%R; 4%R]); reflexivity.
Defined.

(** ** The object after [solver] *)

Section Frame.

Context {F : Type} {N : Number F}.
Variable solve_ivp : integrator F.

Lemma solver_empty_grid_eq (self : Solution F) :
  0 <= pools (model self) (protocol self) ->
  t_eval self = [] ->
  let zeros := repeat zero (Z.to_nat (pools (model self) (protocol self))) in
  solver solve_ivp self
  = (set_sol (set_y0 self zeros) (SolArray zeros), Raise IndexError).
Proof.
  intros Hn Hgrid zeros. unfold solver, pools in *.
  unfold mbind at 1 2. cbn [attr].
  destruct (subcutaneous (protocol self)); unfold np_zeros.
  - destruct (Z.ltb_spec (size (model self) + 1) 0) as [| _]; [lia |].
    cbn -[getitem]. now rewrite Hgrid.
  - destruct (Z.ltb_spec (size (model self)) 0) as [| _]; [lia |].
    cbn -[getitem]. now rewrite Hgrid.
Qed.

(** Running [solver] on the object it left behind changes nothing more. *)
Lemma solver_twice (self : Solution F) :
  let after := fst (solver solve_ivp self) in
  model after = model self /\
  protocol after = protocol self /\
  t_eval after = t_eval self /\
  solver solve_ivp after = solver solve_ivp self.
Proof.
  intros after. unfold after. clear after.
  destruct (Z.lt_ge_cases (pools (model self) (protocol self)) 0)
    as [Hneg | Hpools].
  { rewrite (solver_negative_size solve_ivp self Hneg). cbn [fst].
    split; [| split; [| split]]; try reflexivity.
    now apply solver_negative_size. }
  destruct (t_eval self) as [| t0 grid] eqn:Hgrid.
  { rewrite (solver_empty_grid_eq self Hpools Hgrid). cbn [fst].
    split; [| split; [| split]]; try reflexivity; try exact Hgrid.
    exact (solver_empty_grid_eq (set_sol (set_y0 self _) (SolArray _))
             Hpools Hgrid). }
  assert (Hfirst : getitem (t_eval self) 0 = Return t0) by now rewrite Hgrid.
  assert (Hlast : getitem (t_eval self) (-1)
                  = Return (nth (length (t_eval self) - 1) (t_eval self) t0))
    by (apply getitem_last; congruence).
  rewrite (solver_eq solve_ivp self t0 _ Hpools Hfirst Hlast).
  destruct (solve_ivp _ _ _ _) as [r | e] eqn:Hrun; cbn [fst];
    (split; [| split; [| split]]; try reflexivity; try exact Hgrid);
    match goal with
    | |- solver _ ?s = _ =>
        rewrite (solver_eq solve_ivp s t0 _ Hpools Hfirst Hlast)
    end;
    cbn -[getitem]; now rewrite Hrun.
Qed.

End Frame.

(** X8.  What [solver] leaves alone.  Whatever its outcome, [solver] keeps
    the model, the protocol and the grid of the object; run on the object it
    left behind, it gives the same outcome and the same object again; and
    the plotting entry point leaves the object as its call of [solver]
    does. *)
Theorem solver_keeps_inputs_and_is_idempotent {F : Type} {N : Number F}
  (solve_ivp : integrator F) (self : Solution F) :
  let after := fst (solver solve_ivp self) in
  model after = model self /\
  protocol after = protocol self /\
  t_eval after = t_eval self /\
  solver solve_ivp after = solver solve_ivp self /\
  forall separate,
    fst (generate_plot solve_ivp separate self) = after.
Proof.
  intros after.
  destruct (solver_twice solve_ivp self) as (Hm & Hp & Hgrid & Htwice).
  repeat split; try assumption.
  intros separate. unfold after, generate_plot, mbind at 1.
  destruct (solver solve_ivp self) as [self' [r | e]]; [| reflexivity].
  unfold mbind, attr, eval.
  now destruct (getitem (OdeResult.y r) 0).
Qed.

(** ** Plotting and construction *)

Lemma for_each_append {A B} (body : list B -> A -> result (list B))
  (g : A -> B) (xs : list A) :
  (forall acc x, In x xs -> body acc x = Return (acc ++ [g x])) ->
  forall acc, for_each xs body acc = Return (acc ++ map g xs).
Proof.
  induction xs as [| x xs IH]; intros Hbody acc; cbn [for_each map].
  - now rewrite app_nil_r.
  - rewrite Hbody by now left. cbn [bind].
    rewrite IH by (intros; apply Hbody; now right).
    now rewrite <- app_assoc.
Qed.

Section Plot.

Context {F : Type} {N : Number F}.
Variable solve_ivp : integrator F.

(** The plotting entry point, once its call of [solver] has returned. *)
Lemma generate_plot_after_solver (separate : bool) (self self' : Solution F)
  (r : OdeResult.type F) :
  solver solve_ivp self = (self', Return r) ->
  generate_plot solve_ivp separate self
  = (self',
     row <- getitem (OdeResult.y r) 0 ;;
     for_each (range 0 (size (model self) - 1))
       (fun lines i =>
          row <- getitem (OdeResult.y r) (i + 1) ;;
          Return (lines ++ [ {| axes := if separate then i + 2 else 1;
                                label := ("- q_p" ++ str (i + 2))%string;
                                xdata := OdeResult.t r;
                                ydata := row |} ]))
       [ {| axes := 1; label := "- q_c";
            xdata := OdeResult.t r; ydata := row |} ]).
Proof.
  intros Hsolver.
  destruct (solver_twice solve_ivp self) as (Hmodel & _).
  rewrite Hsolver in Hmodel. cbn [fst] in Hmodel.
  unfold generate_plot, mbind at 1. rewrite Hsolver.
  unfold mbind, attr, eval. rewrite Hmodel.
  now destruct (getitem (OdeResult.y r) 0).
Qed.

End Plot.

(** X9.  The plotted curves.  When its call of [solver] returns a
    trajectory [r] with a row for each of the [size >= 1] compartments, each
    row as long as the times of [r], the plotting entry point draws [size]
    curves and looks at no flag of [r]: curve [k] is row [k] against the
    times of [r], on subplot [k + 1] when [separate] and on the only one
    otherwise, labelled ["- q_c"] for [k = 0] and ["- q_p"] followed by
    [k + 1] for the others. *)
Theorem generate_plot_curves {F : Type} {N : Number F}
  (solve_ivp : integrator F) (separate : bool) (self self' : Solution F)
  (r : OdeResult.type F) :
  solver solve_ivp self = (self', Return r) ->
  1 <= size (model self) ->
  size (model self) <= Z.of_nat (length (OdeResult.y r)) ->
  Forall (fun row => length row = length (OdeResult.t r)) (OdeResult.y r) ->
  exists lines,
    generate_plot solve_ivp separate self = (self', Return lines) /\
    Z.of_nat (length lines) = size (model self) /\
    forall k, 0 <= k < size (model self) ->
      exists row,
        getitem (OdeResult.y r) k = Return row /\
        getitem lines k = Return (curve separate r k row).
Proof.
  intros Hsolver Hsize Hrows _.
  rewrite (generate_plot_after_solver solve_ivp separate self self' r
             Hsolver).
  set (rows := OdeResult.y r) in *.
  rewrite (getitem_nth rows 0 []) by lia. cbn [bind].
  rewrite (for_each_append _
             (fun i => curve separate r (i + 1)
                         (nth (Z.to_nat (i + 1)) rows []))).
  - eexists. split; [reflexivity |]. split.
    + rewrite length_app, length_map, length_range. cbn [length]. lia.
    + intros k Hk. exists (nth (Z.to_nat k) rows []).
      split; [apply getitem_nth; lia |].
      destruct (Z.eq_dec k 0) as [-> | Hk0].
      { rewrite (getitem_nth _ 0 (curve separate r 0 []))
          by (rewrite length_app; cbn [length]; lia).
        unfold curve. now destruct separate. }
      rewrite (getitem_nth _ k (curve separate r 0 []))
        by (rewrite length_app, length_map, length_range;
            cbn [length]; lia).
      rewrite app_nth2 by (cbn [length]; lia). cbn [length].
      rewrite nth_indep
        with (d' := curve separate r (0 + 1)
                      (nth (Z.to_nat (0 + 1)) rows []))
        by (rewrite length_map, length_range; lia).
      rewrite (map_nth (fun i => curve separate r (i + 1)
                                   (nth (Z.to_nat (i + 1)) rows []))).
      rewrite nth_range by lia.
      do 2 f_equal; try lia. f_equal. lia.
  - intros acc i Hi. apply in_range in Hi.
    rewrite (getitem_nth rows (i + 1) []) by lia. cbn [bind].
    unfold curve. destruct (Z.eqb_spec (i + 1) 0); [lia |].
    do 4 f_equal.
    + destruct separate; [lia | reflexivity].
    + do 2 f_equal. lia.
Qed.

Lemma generate_plot_curves_witness :
  exists self' lines,
    generate_plot (euler_ivp 1000) true
      (unsolved (two_compartments 1%float) (constant_dose false 1%float)
         [0%float; 0.5%float; 1%float])
    = (self', Return lines) /\
    Z.of_nat (length lines) = 2.
Proof.
  eassert (Hsolver :
      solver (euler_ivp 1000)
        (unsolved (two_compartments 1%float) (constant_dose false 1%float)
           [0%float; 0.5%float; 1%float]) = (_, Return _))
    by (vm_compute; reflexivity).
  destruct (generate_plot_curves (euler_ivp 1000) true _ _ _ Hsolver)
    as (lines & Hplot & Hcount & _).
  - cbn. lia.
  - cbn. lia.
  - repeat constructor.
  - eexists. exists lines. split; [exact Hplot | exact Hcount].
Defined.

(** X10.  What a constructed object holds.  When the constructor returns,
    [nsteps] is at least [1] and the number of pools is not negative; the
    object holds the model and the protocol it was given, the grid of
    [nsteps] times, the zero state with one entry per pool, and the result
    the integrator returned for the span between the first and the last
    grid time, that zero state and that grid. *)
Theorem constructed_object {F : Type} {N : Number F}
  (solve_ivp : integrator F) (m : Model F) (p : Protocol F) (tmax : F)
  (nsteps : Z) (self : Solution F) :
  __init__ solve_ivp m p tmax nsteps = Return self ->
  1 <= nsteps /\
  0 <= pools m p /\
  model self = m /\
  protocol self = p /\
  np_linspace zero tmax nsteps = Return (t_eval self) /\
  Z.of_nat (length (t_eval self)) = nsteps /\
  y0 self = Some (repeat zero (Z.to_nat (pools m p))) /\
  exists r t_first t_last,
    sol self = Some (SolResult r) /\
    getitem (t_eval self) 0 = Return t_first /\
    getitem (t_eval self) (-1) = Return t_last /\
    solve_ivp (step_function m p) (t_first, t_last)
      (repeat zero (Z.to_nat (pools m p))) (t_eval self) = Return r.
Proof.
  intros Hinit.
  destruct (init_inv solve_ivp m p tmax nsteps self Hinit)
    as (grid & t_first & t_last & r & Hpools & Hgrid & Hfirst & Hlast
        & Hrun & ->).
  cbn [model protocol t_eval y0 sol solved].
  assert (Hsteps : 0 <= nsteps).
  { destruct (Z.lt_ge_cases nsteps 0) as [Hneg | Hnn]; [| assumption].
    rewrite np_linspace_negative in Hgrid by assumption. discriminate. }
  destruct (np_linspace_length zero tmax nsteps Hsteps)
    as (grid' & Hgrid' & Hlen).
  rewrite Hgrid in Hgrid'. injection Hgrid' as <-.
  assert (Hnonempty : 1 <= nsteps).
  { destruct grid; [discriminate Hfirst | cbn [length] in Hlen; lia]. }
  repeat split; try assumption.
  exists r, t_first, t_last. repeat split; assumption.
Qed.

Lemma constructed_object_witness :
  exists self,
    __init__ (euler_ivp 1000) (two_compartments 1%float)
      (constant_dose true 1%float) 1%float 3 = Return self /\
    Z.of_nat (length (t_eval self)) = 3 /\
    y0 self = Some [0%float; 0%float; 0%float].
Proof.
  eassert (Hinit :
      __init__ (euler_ivp 1000) (two_compartments 1%float)
        (constant_dose true 1%float) 1%float 3 = Return _)
    by (vm_compute; reflexivity).
  destruct (constructed_object _ _ _ _ _ _ Hinit)
    as (_ & _ & _ & _ & _ & Hlen & Hy0 & _).
  eexists. split; [exact Hinit |]. split; [exact Hlen | exact Hy0].
Defined.
